(** * errbot/backends/base.py: identifiers, messages, presences, streams and
      the reconnecting serve loop of [Backend].

    The development follows the Python module: the identifier class
    hierarchy, [Stream], [Message], [Presence] and [Backend].  Objects that
    are mutated in place are modelled by explicit state passing, objects
    that are shared by a heap of locations; a call that may raise ends in a
    [completion].  The delays of [Backend] are exact rationals, with the
    random draws and the outcomes of [serve_once] and [time.sleep] given by
    a script; [Binary64] repeats the run without jitter on floats. *)

From Stdlib Require Import ZArith QArith Qminmax Qround Qpower String List Lia Lqa.
From Stdlib Require PrimFloat SpecFloat FloatOps.
From stdpp Require Import base option strings gmap.

Close Scope Q_scope.
Open Scope string_scope.
Import ListNotations.

(** ** Exceptions and completions *)

(** The exceptions the module raises or catches.  [OtherException] stands for
    whatever else a back-end may raise: the bare [except:] of [serve_forever]
    does not tell them apart. *)
Inductive exn :=
| ValueError (msg : string)
| NotImplementedError (msg : string)
| KeyboardInterrupt
| OtherException (what : string).

(** How a call ends: it returns a value or it raises. *)
Inductive completion (A : Type) :=
| Return (a : A)
| Raise (e : exn).
Arguments Return {A} a.
Arguments Raise {A} e.

(** ** The identifier classes *)

(** The four classes of the identifier contract, [class X(Base)]. *)
Inductive pyclass := Identifier | Person | RoomOccupant | Room.

Global Instance pyclass_eq_dec : EqDecision pyclass.
Proof. solve_decision. Defined.

(** The base classes as the [class] statements list them. *)
Definition bases (c : pyclass) : list pyclass :=
  match c with
  | Identifier => []
  | Person => [Identifier]
  | RoomOccupant => [Identifier]
  | Room => [Identifier]
  end.

(** [issubclass(c, d)]: the hierarchy is one level deep, so the class itself
    and its direct bases are all its ancestors ([bases_closed] below). *)
Definition issubclass (c d : pyclass) : bool :=
  bool_decide (c = d) || bool_decide (d ∈ bases c).

(** An identifier object, tagged with the contract class its concrete
    back-end class derives from.  [plain_identifier] is an object that is an
    [Identifier] and none of the three refinements. *)
Inductive identifier :=
| person_obj (person client nick aclattr fullname : string)
| room_occupant_obj (room : string)
| room_obj (name : string)
| plain_identifier (repr : string).

Definition type_of (i : identifier) : pyclass :=
  match i with
  | person_obj _ _ _ _ _ => Person
  | room_occupant_obj _ => RoomOccupant
  | room_obj _ => Room
  | plain_identifier _ => Identifier
  end.

(** [isinstance(x, c)] where [x] may be [None], which is an instance of none
    of the classes. *)
Definition isinstance (x : option identifier) (c : pyclass) : bool :=
  match x with
  | None => false
  | Some i => issubclass (type_of i) c
  end.

(** ** Stream *)

Module Stream.

Definition STREAM_WAITING_TO_START := "pending".
Definition STREAM_TRANSFER_IN_PROGRESS := "in progress".
Definition STREAM_SUCCESSFULLY_TRANSFERED := "success".
Definition STREAM_PAUSED := "paused".
Definition STREAM_ERROR := "error".
Definition STREAM_REJECTED := "rejected".

Definition DEFAULT_REASON := "unknown".

(** The binary source the stream reads from. *)
Definition BinaryIO := list Byte.byte.

(** The attributes [__init__] sets. *)
Record Stream := mkStream {
  fsource : BinaryIO;
  _identifier : identifier;
  _name : option string;
  _size : option Z;
  _stream_type : option string;
  _status : string;
  _reason : string;
  _transfered : Z
}.

Definition set_status (v : string) (s : Stream) : Stream :=
  mkStream (fsource s) (_identifier s) (_name s) (_size s) (_stream_type s)
           v (_reason s) (_transfered s).

Definition set_reason (v : string) (s : Stream) : Stream :=
  mkStream (fsource s) (_identifier s) (_name s) (_size s) (_stream_type s)
           (_status s) v (_transfered s).

Definition set_transfered (v : Z) (s : Stream) : Stream :=
  mkStream (fsource s) (_identifier s) (_name s) (_size s) (_stream_type s)
           (_status s) (_reason s) v.

Definition __init__ (identifier : identifier) (fsource : BinaryIO)
    (name : option string) (size : option Z) (stream_type : option string)
    : Stream :=
  mkStream fsource identifier name size stream_type
           STREAM_WAITING_TO_START DEFAULT_REASON 0.

(** The read-only properties. *)
Definition identifier_ (s : Stream) := _identifier s.
Definition name (s : Stream) := _name s.
Definition size (s : Stream) := _size s.
Definition transfered (s : Stream) := _transfered s.
Definition stream_type (s : Stream) := _stream_type s.
Definition status (s : Stream) := _status s.

(** A method call on a stream: the stream after the call and how the call
    ended.  A raising call leaves the attributes as they were when the
    [raise] was reached. *)
Definition method (A : Type) := Stream -> Stream * completion A.

Definition accept : method unit := fun s =>
  if negb (String.eqb (_status s) STREAM_WAITING_TO_START)
  then (s, Raise (ValueError "Invalid state, the stream is not pending."))
  else (set_status STREAM_TRANSFER_IN_PROGRESS s, Return tt).

Definition reject : method unit := fun s =>
  if negb (String.eqb (_status s) STREAM_WAITING_TO_START)
  then (s, Raise (ValueError "Invalid state, the stream is not pending."))
  else (set_status STREAM_REJECTED s, Return tt).

(** [error(reason=DEFAULT_REASON)]: [None] is the call without argument. *)
Definition error (reason : option string) : method unit := fun s =>
  let reason := default DEFAULT_REASON reason in
  (set_reason reason (set_status STREAM_ERROR s), Return tt).

Definition success : method unit := fun s =>
  if negb (String.eqb (_status s) STREAM_TRANSFER_IN_PROGRESS)
  then (s, Raise (ValueError "Invalid state, the stream is not in progress."))
  else (set_status STREAM_SUCCESSFULLY_TRANSFERED s, Return tt).

(** [clone] builds a second stream and leaves [self] alone. *)
Definition clone (new_fsource : BinaryIO) (s : Stream) : Stream :=
  __init__ (_identifier s) new_fsource (_name s) (_size s) (_stream_type s).

Definition ack_data (length : Z) : method unit := fun s =>
  (set_transfered length s, Return tt).

(** The mutating operations a caller can apply to one stream. *)
Inductive op :=
| Accept
| Reject
| Error (reason : option string)
| Success
| AckData (length : Z).

Definition call (o : op) : method unit :=
  match o with
  | Accept => accept
  | Reject => reject
  | Error r => error r
  | Success => success
  | AckData n => ack_data n
  end.

(** The values [transfered] shows after each call of a sequence; a raised
    [ValueError] is caught by the caller and the next call goes ahead on
    the same object. *)
Fixpoint transfered_history (ops : list op) (s : Stream) : list Z :=
  match ops with
  | [] => []
  | o :: rest =>
      let s' := fst (call o s) in
      transfered s' :: transfered_history rest s'
  end.

End Stream.

(** ** Message *)

Module Message.

(** Values a back-end may store in [extras]. *)
Inductive pyval :=
| VNone
| VBool (b : bool)
| VInt (z : Z)
| VStr (s : string).

(** Object identities.  [a is b] is equality of locations. *)
Definition loc := positive.

(** The attributes of a [Message]; [_extras] refers to a mapping object. *)
Record Message := mkMessage {
  _body : string;
  _from : option identifier;
  _to : option identifier;
  _delayed : bool;
  _extras : loc
}.

(** The objects on the heap: dictionaries and messages. *)
Inductive object :=
| DictObj (d : gmap string pyval)
| MessageObj (m : Message).

Abbreviation heap := (gmap loc object).

(** The properties. *)
Definition to (m : Message) := _to m.
Definition frm (m : Message) := _from m.
Definition body (m : Message) := _body m.
Definition delayed (m : Message) := _delayed m.
Definition extras (m : Message) := _extras m.

(** The setters, acting on the attributes of [self]. *)
Definition set_to (v : option identifier) (m : Message) : Message :=
  mkMessage (_body m) (_from m) v (_delayed m) (_extras m).
Definition set_frm (v : option identifier) (m : Message) : Message :=
  mkMessage (_body m) v (_to m) (_delayed m) (_extras m).
Definition set_body (v : string) (m : Message) : Message :=
  mkMessage v (_from m) (_to m) (_delayed m) (_extras m).
Definition set_delayed (v : bool) (m : Message) : Message :=
  mkMessage (_body m) (_from m) (_to m) v (_extras m).

Definition is_direct (m : Message) : bool := isinstance (to m) Person.

Definition is_group (m : Message) : bool := isinstance (to m) Room.

(** The message and the mapping stored at a location. *)
Definition message_at (h : heap) (l : loc) : option Message :=
  match h !! l with
  | Some (MessageObj m) => Some m
  | _ => None
  end.

Definition dict_at (h : heap) (l : loc) : option (gmap string pyval) :=
  match h !! l with
  | Some (DictObj d) => Some d
  | _ => None
  end.

(** Truth value of the [extras] argument in [extras or dict()]: [None] and
    an empty mapping are false, every other object is true. *)
Definition truthy (h : heap) (v : option loc) : bool :=
  match v with
  | None => false
  | Some l =>
      match h !! l with
      | Some (DictObj d) => negb (bool_decide (d = ∅))
      | Some (MessageObj _) => true
      | None => false
      end
  end.

(** [d[k] = v] on the mapping at [l]. *)
Definition dict_setitem (l : loc) (k : string) (v : pyval) (h : heap) : heap :=
  match h !! l with
  | Some (DictObj d) => <[l := DictObj (<[k := v]> d)]> h
  | _ => h
  end.

Section WithUtils.

(** [errbot.utils.compat_str], which this file imports. *)
Variable compat_str : string -> string.

(** [Message(body, frm, to, delayed, extras)]: a new object [self] is made,
    then [__init__] fills it; [extras or dict()] makes a new empty mapping
    when the argument is false.  The result is the new object's location
    and the heap after the call. *)
Definition __init__ (body : string) (frm to : option identifier)
    (delayed : bool) (extras : option loc) (h : heap) : loc * heap :=
  let self := fresh (dom h) in
  let '(e, h1) :=
    match extras with
    | Some l =>
        if truthy h extras then (l, h)
        else let d := fresh ({[self]} ∪ dom h) in (d, <[d := DictObj ∅]> h)
    | None =>
        let d := fresh ({[self]} ∪ dom h) in (d, <[d := DictObj ∅]> h)
    end in
  (self, <[self := MessageObj (mkMessage (compat_str body) frm to delayed e)]> h1).

(** [self.clone()]; [None] when [self] is not a message of the heap. *)
Definition clone (self : loc) (h : heap) : option (loc * heap) :=
  match message_at h self with
  | Some m =>
      Some (__init__ (_body m) (_from m) (_to m) (_delayed m)
                     (Some (extras m)) h)
  | None => None
  end.

End WithUtils.

(** [compat_str] on a [str], which it returns as it is. *)
Definition compat_id (s : string) : string := s.

End Message.

(** ** Presence *)

Module Presence.

Definition ONLINE := "online".
Definition OFFLINE := "offline".
Definition AWAY := "away".
Definition DND := "dnd".

Record Presence := mkPresence {
  _identifier : identifier;
  _status : option string;
  _message : option string
}.

(** The constructor; [None] is Python's [None] for each argument. *)
Definition __init__ (identifier : option identifier)
    (status message : option string) : completion Presence :=
  match identifier with
  | None => Raise (ValueError "Presence: identifiers is None")
  | Some i =>
      match status, message with
      | None, None =>
          Raise (ValueError
            "Presence: at least a new status or a new status message mustbe present")
      | _, _ => Return (mkPresence i status message)
      end
  end.

Definition occupant (p : Presence) := _identifier p.
Definition status (p : Presence) := _status p.
Definition message (p : Presence) := _message p.

End Presence.

(** ** Backend *)

Module Backend.

(** The attributes [Backend.__init__] sets.  Delays are exact rationals. *)
Record Backend := mkBackend {
  _reconnection_count : Z;
  _reconnection_delay : Q;
  _reconnection_max_delay : Q;
  _reconnection_multiplier : Q;
  _reconnection_jitter : Q * Q
}.

Definition __init__ : Backend :=
  mkBackend 0 1 600 (7 # 4) (0, 3)%Q.

Definition set_count (v : Z) (b : Backend) : Backend :=
  mkBackend v (_reconnection_delay b) (_reconnection_max_delay b)
            (_reconnection_multiplier b) (_reconnection_jitter b).

Definition set_delay (v : Q) (b : Backend) : Backend :=
  mkBackend (_reconnection_count b) v (_reconnection_max_delay b)
            (_reconnection_multiplier b) (_reconnection_jitter b).

(** What an observer of one run sees, in order: the calls into the adapter,
    the log records and the sleeps. *)
Inductive event :=
| CallServeOnce
| LogException
| LogInterrupt
| LogReconnecting (delay : Q) (count : Z)
| Slept (seconds : Q)
| SleepInterrupted (seconds : Q)
| LogTriggerShutdown
| CallShutdown.

(** What the environment decides in one turn of the loop: whether the
    adapter's [serve_once] connected (and so called
    [reset_reconnection_count]) before it ended, how it ended, whether an
    interrupt arrives during [time.sleep], and the value [random.random()]
    yields inside [random.uniform]. *)
Record cycle := mkCycle {
  connects : bool;
  serve : completion bool;
  sleep_interrupted : bool;
  sample : Q
}.

(** Computations over the back-end and the trace that may raise. *)
Definition M (A : Type) : Type :=
  Backend * list event -> (Backend * list event) * completion A.

Definition ret {A} (a : A) : M A := fun w => (w, Return a).

Definition raise {A} (e : exn) : M A := fun w => (w, Raise e).

Definition bind {A B} (m : M A) (k : A -> M B) : M B := fun w =>
  match m w with
  | (w', Return a) => k a w'
  | (w', Raise e) => (w', Raise e)
  end.

#[global] Instance M_ret : MRet M := @ret.
#[global] Instance M_bind : MBind M := fun A B k m => bind m k.

(** [try: m except e: handler e]. *)
Definition try_except {A} (m : M A) (handler : exn -> M A) : M A := fun w =>
  match m w with
  | (w', Return a) => (w', Return a)
  | (w', Raise e) => handler e w'
  end.

Definition emit (e : event) : M unit := fun '(b, tr) => ((b, (tr ++ [e])%list), Return tt).

Definition get : M Backend := fun '(b, tr) => ((b, tr), Return b).

Definition modify (f : Backend -> Backend) : M unit :=
  fun '(b, tr) => ((f b, tr), Return tt).

(** [x > y] on delays. *)
Definition Qgtb (x y : Q) : bool :=
  match Qcompare x y with Gt => true | _ => false end.

(** [random.uniform(a, b)] is [a + (b - a) * random()]. *)
Definition uniform (ab : Q * Q) (u : Q) : Q :=
  (fst ab + (snd ab - fst ab) * u)%Q.

(** The delay after the multiplication and the clamp, before the jitter is
    added. *)
Definition pre_jitter_delay (b : Backend) : Q :=
  let d := (_reconnection_delay b * _reconnection_multiplier b)%Q in
  if Qgtb d (_reconnection_max_delay b) then _reconnection_max_delay b else d.

(** [time.sleep(seconds)]: it completes, or an interrupt ends it early. *)
Definition time_sleep (c : cycle) (seconds : Q) : M unit :=
  if sleep_interrupted c
  then emit (SleepInterrupted seconds);; raise KeyboardInterrupt
  else emit (Slept seconds).

Definition _delay_reconnect (c : cycle) : M unit :=
  b ← get;
  time_sleep c (_reconnection_delay b);;
  modify (fun b =>
    set_delay (pre_jitter_delay b + uniform (_reconnection_jitter b) (sample c))%Q b).

Definition reset_reconnection_count : M unit :=
  modify (set_count 0);;
  modify (set_delay 1).

(** The adapter's [serve_once], as the environment scripts it. *)
Definition serve_once (c : cycle) : M bool :=
  emit CallServeOnce;;
  (if connects c then reset_reconnection_count else ret tt);;
  match serve c with
  | Return r => ret r
  | Raise e => raise e
  end.

Definition shutdown : M unit := emit CallShutdown.

(** How one turn of [while True] ends. *)
Inductive control := Break | Continue.

(** One turn of the loop of [serve_forever]. *)
Definition turn (c : cycle) : M control :=
  k ← try_except
         (r ← serve_once c;
          if (r : bool) then ret Break else ret Continue)
         (fun e =>
            match e with
            | KeyboardInterrupt => emit LogInterrupt;; ret Break
            | _ => emit LogException;; ret Continue
            end);
  match k with
  | Break => ret Break
  | Continue =>
      b ← get;
      emit (LogReconnecting (_reconnection_delay b) (_reconnection_count b));;
      try_except
        (_delay_reconnect c;;
         modify (fun b => set_count (_reconnection_count b + 1) b);;
         ret Continue)
        (fun e =>
           match e with
           | KeyboardInterrupt => emit LogInterrupt;; ret Break
           | _ => raise e
           end)
  end.

(** The loop, one turn per entry of the script.  [Return false] says the
    script ended with the loop still turning. *)
Fixpoint serve_loop (script : list cycle) : M bool :=
  match script with
  | [] => ret false
  | c :: rest =>
      k ← turn c;
      match k with
      | Break => ret true
      | Continue => serve_loop rest
      end
  end.

(** [serve_forever]: the code after the loop runs once the loop is left. *)
Definition serve_forever (script : list cycle) : M bool :=
  left ← serve_loop script;
  if (left : bool)
  then emit LogTriggerShutdown;; shutdown;; ret true
  else ret false.

(** A run from a back-end with an empty trace. *)
Definition run (b : Backend) (script : list cycle)
    : Backend * list event * completion bool :=
  serve_forever script (b, []).

(** The back-end as [serve_once], one turn and a whole script leave it. *)
Definition after_serve_once (c : cycle) (b : Backend) : Backend :=
  fst (fst (serve_once c (b, []))).

Definition after_turn (c : cycle) (b : Backend) : Backend :=
  fst (fst (turn c (b, []))).

Definition after_script (script : list cycle) (b : Backend) : Backend :=
  fst (fst (serve_loop script (b, []))).

(** A failed cycle: the adapter raises [e] without having connected and
    nothing interrupts the sleep; [u] is the random draw of the jitter. *)
Definition failure (e : exn) (u : Q) : cycle :=
  mkCycle false (Raise e) false u.

(** Rounding to two decimals, in hundredths. *)
Definition round2 (q : Q) : Z := Qfloor (q * 100 + (1 # 2))%Q.

(** Whether a turn of the loop leaves it: a true return of [serve_once], an
    interrupt raised by it, or an interrupt during the sleep. *)
Definition leaves (c : cycle) : bool :=
  match serve c with
  | Return true => true
  | Raise KeyboardInterrupt => true
  | _ => sleep_interrupted c
  end.

Definition is_shutdown (e : event) : bool :=
  match e with CallShutdown => true | _ => false end.

Definition is_serve_once (e : event) : bool :=
  match e with CallServeOnce => true | _ => false end.

Definition is_reconnecting (e : event) : bool :=
  match e with LogReconnecting _ _ => true | _ => false end.

Definition is_exception_log (e : event) : bool :=
  match e with LogException => true | _ => false end.

(** What one turn and a whole script add to the trace. *)
Definition turn_events (c : cycle) (b : Backend) : list event :=
  snd (fst (turn c (b, []))).

Definition loop_events (script : list cycle) (b : Backend) : list event :=
  snd (fst (serve_loop script (b, []))).

(** The record [log.exception] writes when [serve_once] raised. *)
Definition exception_log (c : cycle) : list event :=
  match serve c with
  | Raise _ => [LogException]
  | Return _ => []
  end.

Definition count (p : event -> bool) (tr : list event) : nat :=
  length (List.filter p tr).

(** The settings of the back-off, which no method changes. *)
Definition settings (b : Backend) : Q * Q * (Q * Q) :=
  (_reconnection_max_delay b, _reconnection_multiplier b, _reconnection_jitter b).

(** A cycle that fails: the adapter did not connect, and the turn goes
    through its sleep and comes back to [serve_once]. *)
Definition failed (c : cycle) : bool :=
  negb (connects c) && negb (leaves c).

(** The pre-jitter delays of a run: the value [pre_jitter_delay] takes in
    each [_delay_reconnect] that gets past its sleep, in order. *)
Fixpoint backoff_delays (script : list cycle) (b : Backend) : list Q :=
  match script with
  | [] => []
  | c :: rest =>
      if leaves c then []
      else pre_jitter_delay (after_serve_once c b)
             :: backoff_delays rest (after_turn c b)
  end.

(** A list of delays in which each one is greater than the one before. *)
Fixpoint increasing (l : list Q) : Prop :=
  match l with
  | x :: (y :: _) as rest => (x < y)%Q /\ increasing rest
  | _ => True
  end.

End Backend.

(** ** The delay in binary64 arithmetic *)

(** Python keeps the delay in a binary64 float once it has been multiplied
    by 1.75.  [Binary64] runs the assignments of [_delay_reconnect] on
    floats for the run without jitter, to compare with the rationals of
    [Backend]. *)
Module Binary64.

Import PrimFloat SpecFloat FloatOps.

(** The rational a finite float stands for. *)
Definition float_q (f : float) : option Q :=
  match Prim2SF f with
  | S754_zero _ => Some 0%Q
  | S754_finite s m e =>
      Some ((if s then -1 else 1) * inject_Z (Zpos m) * 2 ^ e)%Q
  | _ => None
  end.

(** The three assignments of [_delay_reconnect] with multiplier 1.75,
    maximum 600 and the jitter [j]. *)
Definition delay_reconnect (d j : float) : float :=
  let d := (d * 1.75)%float in
  let d := if (600 <? d)%float then 600%float else d in
  (d + j)%float.

(** The delay after [n] failed cycles without jitter, from 1. *)
Fixpoint delay_after (n : nat) : float :=
  match n with
  | O => 1%float
  | S n => delay_reconnect (delay_after n) 0%float
  end.

End Binary64.

(** ** Sequences of calls on one stream *)

Module StreamCalls.

Import Stream.

(** The stream after a sequence of calls; a raised [ValueError] is caught
    by the caller and the next call goes ahead on the same object. *)
Fixpoint run (ops : list op) (s : Stream) : Stream :=
  match ops with
  | [] => s
  | o :: rest => run rest (fst (call o s))
  end.

Definition is_error_call (o : op) : bool :=
  match o with Error _ => true | _ => false end.

(** The reason the last [error] call of a sequence stores, [r] when there is
    none. *)
Fixpoint last_reason (ops : list op) (r : string) : string :=
  match ops with
  | [] => r
  | Error x :: rest => last_reason rest (default DEFAULT_REASON x)
  | _ :: rest => last_reason rest r
  end.

(** The statuses the transition methods assign, with the initial one. *)
Definition assigned_statuses : list string :=
  [STREAM_WAITING_TO_START; STREAM_TRANSFER_IN_PROGRESS;
   STREAM_SUCCESSFULLY_TRANSFERED; STREAM_ERROR; STREAM_REJECTED].

End StreamCalls.

(** ** Message: the remaining properties and [Backend.build_message] *)

Module MessageText.

Import Message.

Definition __str__ (m : Message) : string := _body m.

Definition DEPRECATION :=
  "msg.type is deprecated and will be removed soon ! Use msg.is_direct or msg.is_group.".

(** The [type] property, read from a caller at [filename], line [lineno]
    (in decimal): the record given to [log.warn] and the value returned. *)
Definition type (filename lineno : string) (m : Message) : string * string :=
  let msg := " " ++ filename ++ ":" ++ lineno ++ " : " in
  (msg ++ DEPRECATION, if is_direct m then "chat" else "groupchat").

(** [Backend.build_message(text)] is [Message(body=text)]. *)
Definition build_message (compat_str : string -> string) (text : string)
    (h : heap) : loc * heap :=
  __init__ compat_str text None None false None h.

(** Every message of the heap refers to a mapping of the heap. *)
Definition extras_present (h : heap) : Prop :=
  forall l m, message_at h l = Some m -> is_Some (dict_at h (extras m)).

End MessageText.

(** ** Presence: the string conversion *)

Module PresenceText.

Import Presence.

(** The values of the instance attributes. *)
Inductive attribute :=
| AnIdentifier (i : identifier)
| AText (s : option string).

(** The attributes [__init__] has set on an instance, by name. *)
Definition instance_dict (p : Presence) : gmap string attribute :=
  <["_identifier" := AnIdentifier (_identifier p)]>
    (<["_status" := AText (_status p)]>
       (<["_message" := AText (_message p)]> ∅)).

(** [self.<name>] for a name that neither the class nor its bases define:
    the instance attribute, or an [AttributeError]. *)
Definition instance_attr (p : Presence) (name : string) : completion attribute :=
  match instance_dict p !! name with
  | Some v => Return v
  | None =>
      Raise (OtherException
        ("AttributeError: 'Presence' object has no attribute '" ++ name ++ "'"))
  end.

Definition returned_attr (c : completion attribute) : bool :=
  match c with Return _ => true | Raise _ => false end.

Definition and_then {A B} (c : completion A) (k : A -> completion B)
    : completion B :=
  match c with
  | Return a => k a
  | Raise e => Raise e
  end.

Section WithIdentifiers.

(** [str(identifier)] and [bool(identifier)], which the back-end's
    identifier classes decide. *)
Variable str_identifier : identifier -> string.
Variable bool_identifier : identifier -> bool.

Definition truth (v : attribute) : bool :=
  match v with
  | AnIdentifier i => bool_identifier i
  | AText (Some s) => negb (String.eqb s "")
  | AText None => false
  end.

(** ['%s' % v]. *)
Definition format (v : attribute) : string :=
  match v with
  | AnIdentifier i => str_identifier i
  | AText (Some s) => s
  | AText None => "None"
  end.

(** One [if self.<name>: response += '<label>:%s ' % self.<name>]. *)
Definition add_field (label name : string) (p : Presence) (response : string)
    : completion string :=
  and_then (instance_attr p name) (fun v =>
    if truth v
    then and_then (instance_attr p name) (fun v' =>
           Return (response ++ label ++ ":" ++ format v' ++ " "))
    else Return response).

Definition __str__ (p : Presence) : completion string :=
  and_then (add_field "Nick" "_nick" p "") (fun response =>
  and_then (add_field "Idd" "_identifier" p response) (fun response =>
  and_then (add_field "Status" "_status" p response) (fun response =>
  add_field "Msg" "_message" p response))).

Definition __unicode__ (p : Presence) : completion string := __str__ p.

End WithIdentifiers.

End PresenceText.

(** ** Backend: reading a trace *)

Module BackendTrace.

Import Backend.

(** [Backend.serve_once] as the base class has it. *)
Definition base_serve_once : completion bool :=
  Raise (NotImplementedError
    "It should be implemented specifically for your backend").

(** The counts of the "Reconnecting in ..." records of a trace, in order. *)
Fixpoint reconnect_counts (tr : list event) : list Z :=
  match tr with
  | [] => []
  | LogReconnecting _ n :: rest => n :: reconnect_counts rest
  | _ :: rest => reconnect_counts rest
  end.

(** [l] is [n], [n + 1], [n + 2], ... *)
Fixpoint counts_from (n : Z) (l : list Z) : Prop :=
  match l with
  | [] => True
  | x :: rest => x = n /\ counts_from (n + 1) rest
  end.

(** Every "Reconnecting in [d] seconds" record is followed at once by a
    sleep of [d] seconds. *)
Fixpoint announced (tr : list event) : Prop :=
  match tr with
  | [] => True
  | LogReconnecting d _ :: rest =>
      match rest with
      | Slept d' :: _ => d = d'
      | SleepInterrupted d' :: _ => d = d'
      | _ => False
      end /\ announced rest
  | _ :: rest => announced rest
  end.

(** The seconds every sleep and every record of a trace shows lie between
    [lo] and [hi]. *)
Definition delay_within (lo hi : Q) (e : event) : Prop :=
  match e with
  | LogReconnecting d _ => (lo <= d <= hi)%Q
  | Slept d => (lo <= d <= hi)%Q
  | SleepInterrupted d => (lo <= d <= hi)%Q
  | _ => True
  end.

(** A back-end with the constructor's settings and a delay between 1 and
    603. *)
Definition in_range (b : Backend) : Prop :=
  settings b = settings __init__ /\ (1 <= _reconnection_delay b <= 603)%Q.

(** The delays of the "Reconnecting in ..." records of a trace, in order,
    and the seconds of its completed sleeps. *)
Fixpoint reconnect_delays (tr : list event) : list Q :=
  match tr with
  | [] => []
  | LogReconnecting d _ :: rest => d :: reconnect_delays rest
  | _ :: rest => reconnect_delays rest
  end.

Fixpoint slept_seconds (tr : list event) : list Q :=
  match tr with
  | [] => []
  | Slept d :: rest => d :: slept_seconds rest
  | _ :: rest => slept_seconds rest
  end.

End BackendTrace.

(** ** Identifier objects of any back-end class *)

(** The identifier classes of this file are abstract: the objects a message
    is addressed to are instances of classes a back-end defines, and such a
    class may list several of the contract classes among its bases, as an
    occupant class that is also a [Person].  [isinstance] follows the class
    of the object. *)
Module BackendClasses.

(** A class of a back-end: its name and the contract classes it derives
    from, directly or through its own bases. *)
Record backend_class := mkClass {
  class_name : string;
  contract_bases : list pyclass
}.

(** [issubclass(k, c)] for a back-end class [k] and a contract class [c]:
    [c] is one of the bases of [k] or an ancestor of one. *)
Definition derives_from (k : backend_class) (c : pyclass) : bool :=
  existsb (fun base => issubclass base c) (contract_bases k).

(** An object of a back-end class. *)
Record instance := mkInstance {
  class_of : backend_class;
  text : string
}.

(** [isinstance(x, c)], [x] being [None] or an object. *)
Definition isinstance_of (x : option instance) (c : pyclass) : bool :=
  match x with
  | None => false
  | Some o => derives_from (class_of o) c
  end.

(** [Message.is_direct] and [Message.is_group] of a message whose [to] is
    [to]: the two properties read nothing else of the message. *)
Definition is_direct_to (to : option instance) : bool := isinstance_of to Person.

Definition is_group_to (to : option instance) : bool := isinstance_of to Room.

(** An identifier tagged with one contract class, as an object of a class
    that derives from that class alone. *)
Definition of_identifier (i : identifier) : instance :=
  mkInstance (mkClass "" [type_of i]) "".

End BackendClasses.

(** ** Properties stated over the model *)

(** A transition method [m] guarded by the status [source]: from [source] it
    returns and moves the stream to [target], touching no other attribute;
    from any other status it raises [ValueError(msg)] and the stream stays
    as it was. *)
Definition guarded_transition (m : Stream.method unit) (source target : string)
    (msg : string) (s : Stream.Stream) : Prop :=
  (Stream.status s = source /\
   snd (m s) = Return tt /\
   Stream.status (fst (m s)) = target /\
   fst (m s) = Stream.set_status target s)
  \/
  (Stream.status s <> source /\
   snd (m s) = Raise (ValueError msg) /\
   fst (m s) = s).

(** A list of counter readings that never goes down. *)
Fixpoint nondecreasing (l : list Z) : bool :=
  match l with
  | x :: (y :: _) as rest => (x <=? y)%Z && nondecreasing rest
  | _ => true
  end.

(** Every [ack_data] of the sequence is called with a length that is at
    least the counter's value at the time of the call. *)
Fixpoint acks_grow (ops : list Stream.op) (s : Stream.Stream) : bool :=
  match ops with
  | [] => true
  | o :: rest =>
      match o with
      | Stream.AckData n => (Stream.transfered s <=? n)%Z
      | _ => true
      end && acks_grow rest (fst (Stream.call o s))
  end.

(** ** Stream: the transition methods *)

Section StreamFacts.

Import Stream.

Lemma status_set_status v s : status (set_status v s) = v.
Proof. reflexivity. Qed.

Lemma transfered_set_status v s : transfered (set_status v s) = transfered s.
Proof. reflexivity. Qed.

Lemma transfered_set_reason v s : transfered (set_reason v s) = transfered s.
Proof. reflexivity. Qed.

(** The test [self._status != c] of the guards, as a proposition. *)
Lemma status_test s c :
  negb (String.eqb (_status s) c) = true <-> status s <> c.
Proof.
  unfold status. rewrite negb_true_iff.
  destruct (String.eqb_spec (_status s) c); split; congruence.
Qed.

Lemma accept_guarded s :
  guarded_transition accept STREAM_WAITING_TO_START STREAM_TRANSFER_IN_PROGRESS
                     "Invalid state, the stream is not pending." s.
Proof.
  unfold guarded_transition, accept.
  destruct (negb (String.eqb (_status s) STREAM_WAITING_TO_START)) eqn:Hguard.
  - right. apply status_test in Hguard. simpl. auto.
  - left. apply negb_false_iff, String.eqb_eq in Hguard. simpl. auto.
Qed.

Lemma reject_guarded s :
  guarded_transition reject STREAM_WAITING_TO_START STREAM_REJECTED
                     "Invalid state, the stream is not pending." s.
Proof.
  unfold guarded_transition, reject.
  destruct (negb (String.eqb (_status s) STREAM_WAITING_TO_START)) eqn:Hguard.
  - right. apply status_test in Hguard. simpl. auto.
  - left. apply negb_false_iff, String.eqb_eq in Hguard. simpl. auto.
Qed.

Lemma success_guarded s :
  guarded_transition success STREAM_TRANSFER_IN_PROGRESS
                     STREAM_SUCCESSFULLY_TRANSFERED
                     "Invalid state, the stream is not in progress." s.
Proof.
  unfold guarded_transition, success.
  destruct (negb (String.eqb (_status s) STREAM_TRANSFER_IN_PROGRESS)) eqn:Hguard.
  - right. apply status_test in Hguard. simpl. auto.
  - left. apply negb_false_iff, String.eqb_eq in Hguard. simpl. auto.
Qed.

(** C4.  For every stream, whatever its status: [accept] returns and moves
    the status to "in progress" exactly when the status is "pending",
    [reject] returns and moves it to "rejected" exactly when it is
    "pending", [success] returns and moves it to "success" exactly when it
    is "in progress"; in every other status the call raises a [ValueError]
    ("Invalid state, ...") and the stream is left as it was. *)
Theorem stream_transitions_guarded (s : Stream) :
  guarded_transition accept "pending" "in progress"
                     "Invalid state, the stream is not pending." s /\
  guarded_transition reject "pending" "rejected"
                     "Invalid state, the stream is not pending." s /\
  guarded_transition success "in progress" "success"
                     "Invalid state, the stream is not in progress." s.
Proof.
  split; [| split].
  - apply accept_guarded.
  - apply reject_guarded.
  - apply success_guarded.
Qed.

(** C5.  For every stream, whatever its status, [error(reason)] returns
    without raising, sets the status to "error" and records the reason: the
    one given, or "unknown" when the call has no argument.  No other
    attribute changes. *)
Theorem stream_error_from_any_state (s : Stream) (reason : option string) :
  let s' := fst (error reason s) in
  snd (error reason s) = Return tt /\
  status s' = "error" /\
  _reason s' = match reason with Some r => r | None => "unknown" end /\
  s' = set_reason (_reason s') (set_status "error" s).
Proof.
  unfold error. simpl.
  destruct reason as [r |]; simpl; repeat split.
Qed.

(** Only [ack_data] writes the counter, and it writes its argument. *)
Lemma transfered_call o s :
  transfered (fst (call o s)) =
  match o with AckData n => n | _ => transfered s end.
Proof.
  destruct o; simpl; try reflexivity.
  - unfold accept. destruct (negb _); reflexivity.
  - unfold reject. destruct (negb _); reflexivity.
  - unfold success. destruct (negb _); reflexivity.
Qed.

Lemma nondecreasing_cons x y l :
  nondecreasing (x :: y :: l) = (x <=? y)%Z && nondecreasing (y :: l).
Proof. reflexivity. Qed.

Lemma history_nondecreasing_iff ops : forall s,
  nondecreasing (transfered s :: transfered_history ops s) = acks_grow ops s.
Proof.
  induction ops as [| o rest IH]; intros s.
  - reflexivity.
  - cbn [transfered_history acks_grow]. rewrite nondecreasing_cons, IH.
    f_equal. rewrite transfered_call.
    destruct o; try reflexivity; apply Z.leb_refl.
Qed.

(** C8, counterexample.  On a new stream, [accept(); ack_data(50);
    ack_data(10)] makes the counter read 0, 50, 10: it goes down. *)
Lemma stream_transfered_decreases :
  let s0 := __init__ (person_obj "gbin" "" "" "gbin" "") [] None (Some 100%Z) None in
  transfered_history [Accept; AckData 50; AckData 10] s0 = [0; 50; 10]%Z /\
  nondecreasing (transfered s0 :: transfered_history [Accept; AckData 50; AckData 10] s0)
    = false.
Proof. split; reflexivity. Qed.

(** C8, amended.  The counter starts at 0; [accept], [reject], [error] and
    [success] leave it as it is and [ack_data(length)] sets it to [length]
    in any status; so over a sequence of operations the counter never goes
    down exactly when every [ack_data] is called with a length at least the
    counter's current value. *)
Theorem stream_transfered_assigned :
  (forall i src n sz ty, transfered (__init__ i src n sz ty) = 0%Z) /\
  (forall o s, transfered (fst (call o s)) =
               match o with AckData n => n | _ => transfered s end) /\
  (forall ops s,
     nondecreasing (transfered s :: transfered_history ops s) = true <->
     acks_grow ops s = true).
Proof.
  split; [| split].
  - reflexivity.
  - apply transfered_call.
  - intros ops s. rewrite history_nondecreasing_iff. reflexivity.
Qed.

End StreamFacts.

(** ** Identifiers and messages *)

Section MessageFacts.

Import Message.

(** No base class has bases of its own: [issubclass] misses no ancestor. *)
Lemma bases_closed c d : d ∈ bases c -> bases d = [].
Proof.
  destruct c; simpl; intros Hd.
  - inversion Hd.
  - apply list_elem_of_singleton in Hd. subst. reflexivity.
  - apply list_elem_of_singleton in Hd. subst. reflexivity.
  - apply list_elem_of_singleton in Hd. subst. reflexivity.
Qed.

(** The subclass table the class statements give. *)
Lemma issubclass_table c d :
  issubclass c d = bool_decide (c = d) || bool_decide (d = Identifier /\ c <> Identifier).
Proof. destruct c, d; reflexivity. Qed.

Lemma isinstance_Person x :
  isinstance x Person = true <-> exists i, x = Some i /\ type_of i = Person.
Proof.
  split.
  - destruct x as [i |]; simpl; [| discriminate].
    intros H. exists i. split; [reflexivity |].
    revert H. destruct (type_of i); vm_compute; congruence.
  - intros (i & -> & Hi). simpl. rewrite Hi. reflexivity.
Qed.

Lemma isinstance_Room x :
  isinstance x Room = true <-> exists i, x = Some i /\ type_of i = Room.
Proof.
  split.
  - destruct x as [i |]; simpl; [| discriminate].
    intros H. exists i. split; [reflexivity |].
    revert H. destruct (type_of i); vm_compute; congruence.
  - intros (i & -> & Hi). simpl. rewrite Hi. reflexivity.
Qed.

(** C6.  For every message: [is_direct] holds exactly when [to] is a
    Person-variant identifier and [is_group] exactly when it is a
    Room-variant one; so with a Room-variant [to], [is_group] is true and
    [is_direct] false, with a Person-variant [to] the reverse, the two are
    never both true, and both are false when [to] is unset. *)
Theorem message_direct_xor_group (m : Message) :
  (is_direct m = true <-> exists i, to m = Some i /\ type_of i = Person) /\
  (is_group m = true <-> exists i, to m = Some i /\ type_of i = Room) /\
  (forall i, to m = Some i -> type_of i = Room ->
     is_group m = true /\ is_direct m = false) /\
  (forall i, to m = Some i -> type_of i = Person ->
     is_direct m = true /\ is_group m = false) /\
  is_direct m && is_group m = false /\
  (to m = None -> is_direct m = false /\ is_group m = false).
Proof.
  unfold is_direct, is_group.
  split; [apply isinstance_Person |].
  split; [apply isinstance_Room |].
  split; [| split; [| split]].
  - intros i Hto Hi. rewrite Hto. simpl. rewrite Hi. split; reflexivity.
  - intros i Hto Hi. rewrite Hto. simpl. rewrite Hi. split; reflexivity.
  - destruct (to m) as [i |]; [| reflexivity].
    simpl. destruct (type_of i); reflexivity.
  - intros Hto. rewrite Hto. split; reflexivity.
Qed.

(** C6, at a message to a room and the same message re-addressed to a
    person and to nobody. *)
Lemma message_direct_xor_group_witness :
  let m := mkMessage "hello" None (Some (room_obj "#err")) false 1%positive in
  (is_group m = true /\ is_direct m = false) /\
  (is_direct (set_to (Some (person_obj "gbin" "" "" "gbin" "")) m) = true /\
   is_group (set_to (Some (person_obj "gbin" "" "" "gbin" "")) m) = false) /\
  (is_direct (set_to None m) = false /\ is_group (set_to None m) = false).
Proof.
  intros m. split; [| split].
  - apply (proj1 (proj2 (proj2 (message_direct_xor_group m))) (room_obj "#err"));
      reflexivity.
  - apply (proj1 (proj2 (proj2 (proj2 (message_direct_xor_group
             (set_to (Some (person_obj "gbin" "" "" "gbin" "")) m)))))
             (person_obj "gbin" "" "" "gbin" ""));
      reflexivity.
  - apply (proj2 (proj2 (proj2 (proj2 (proj2 (message_direct_xor_group
             (set_to None m))))))).
    reflexivity.
Defined.

End MessageFacts.

(** ** Message.clone and the [extras] mapping *)

Section CloneFacts.

Import Message.

Variable compat_str : string -> string.

Lemma truthy_dict (h : heap) l d :
  dict_at h l = Some d -> truthy h (Some l) = negb (bool_decide (d = ∅)).
Proof.
  unfold dict_at, truthy.
  destruct (h !! l) as [[d' | m'] |]; intros Hd; simplify_eq; reflexivity.
Qed.

Lemma message_at_dom (h : heap) l m : message_at h l = Some m -> l ∈ dom h.
Proof.
  unfold message_at. intros H. apply elem_of_dom.
  destruct (h !! l) as [o |]; [eauto | discriminate].
Qed.

Lemma dict_at_dom (h : heap) l d : dict_at h l = Some d -> l ∈ dom h.
Proof.
  unfold dict_at. intros H. apply elem_of_dom.
  destruct (h !! l) as [o |]; [eauto | discriminate].
Qed.

Lemma message_at_insert (h : heap) l m : message_at (<[l := MessageObj m]> h) l = Some m.
Proof. unfold message_at. rewrite lookup_insert_eq. reflexivity. Qed.

Lemma message_at_insert_ne (h : heap) l l' o :
  l <> l' -> message_at (<[l := o]> h) l' = message_at h l'.
Proof. intros Hne. unfold message_at. rewrite lookup_insert_ne; done. Qed.

Lemma dict_at_insert_ne (h : heap) l l' o :
  l <> l' -> dict_at (<[l := o]> h) l' = dict_at h l'.
Proof. intros Hne. unfold dict_at. rewrite lookup_insert_ne; done. Qed.

(** The constructor keeps a mapping that is true. *)
Lemma init_keeps_extras body frm to delayed l (h : heap) :
  truthy h (Some l) = true ->
  __init__ compat_str body frm to delayed (Some l) h =
  (fresh (dom h),
   <[fresh (dom h) := MessageObj (mkMessage (compat_str body) frm to delayed l)]> h).
Proof. intros Ht. unfold __init__. rewrite Ht. reflexivity. Qed.

(** The constructor replaces a false [extras], [None] or an empty mapping,
    by a new empty dictionary. *)
Lemma init_new_extras body frm to delayed extras (h : heap) :
  truthy h extras = false ->
  __init__ compat_str body frm to delayed extras h =
  (fresh (dom h),
   <[fresh (dom h) :=
       MessageObj (mkMessage (compat_str body) frm to delayed
                             (fresh ({[fresh (dom h)]} ∪ dom h)))]>
     (<[fresh ({[fresh (dom h)]} ∪ dom h) := DictObj ∅]> h)).
Proof.
  intros Ht. unfold __init__.
  destruct extras as [l |]; [rewrite Ht |]; reflexivity.
Qed.

(** A location outside the heap differs from every location inside. *)
Lemma outside_ne (X : gset loc) l l' : l ∉ X -> l' ∈ X -> l <> l'.
Proof. intros Hout Hin Heq. subst. contradiction. Qed.

(** [clone] on a message whose [extras] is a non-empty mapping: a new
    message object with the same attributes, the mapping shared. *)
Lemma clone_shares_nonempty_extras (h : heap) self m d :
  message_at h self = Some m ->
  dict_at h (extras m) = Some d ->
  d <> ∅ ->
  exists self' h',
    clone compat_str self h = Some (self', h') /\
    (self' ∉ dom h) /\
    message_at h' self = Some m /\
    message_at h' self' =
      Some (mkMessage (compat_str (body m)) (frm m) (to m) (delayed m) (extras m)) /\
    dict_at h' (extras m) = Some d.
Proof.
  intros Hm Hd Hne.
  pose proof (is_fresh (dom h)) as Hfresh.
  pose proof (message_at_dom _ _ _ Hm) as Hself.
  pose proof (dict_at_dom _ _ _ Hd) as Hex.
  exists (fresh (dom h)). eexists.
  unfold clone. rewrite Hm.
  rewrite init_keeps_extras.
  2:{ rewrite (truthy_dict _ _ _ Hd). rewrite bool_decide_eq_false_2; done. }
  split; [reflexivity |]. split; [exact Hfresh |].
  split; [| split].
  - rewrite message_at_insert_ne; [exact Hm | eauto using outside_ne].
  - apply message_at_insert.
  - rewrite dict_at_insert_ne; [exact Hd | eauto using outside_ne].
Qed.

(** [clone] on a message whose [extras] is an empty mapping: the new
    message refers to a new empty dictionary, not to the mapping of
    [self]. *)
Lemma clone_replaces_empty_extras (h : heap) self m :
  message_at h self = Some m ->
  dict_at h (extras m) = Some ∅ ->
  exists self' e' h',
    clone compat_str self h = Some (self', h') /\
    (self' ∉ dom h) /\ (e' ∉ dom h) /\ e' <> extras m /\
    message_at h' self = Some m /\
    message_at h' self' =
      Some (mkMessage (compat_str (body m)) (frm m) (to m) (delayed m) e') /\
    dict_at h' e' = Some ∅ /\
    dict_at h' (extras m) = Some ∅.
Proof.
  intros Hm Hd.
  pose proof (is_fresh (dom h)) as Hfresh.
  pose proof (is_fresh ({[fresh (dom h)]} ∪ dom h)) as Hfresh'.
  pose proof (message_at_dom _ _ _ Hm) as Hself.
  pose proof (dict_at_dom _ _ _ Hd) as Hex.
  set (self' := fresh (dom h)) in *.
  set (e' := fresh ({[self']} ∪ dom h)) in *.
  assert (He' : e' ∉ dom h) by set_solver.
  assert (Hne : e' <> self') by set_solver.
  exists self', e'. eexists.
  unfold clone. rewrite Hm.
  rewrite init_new_extras.
  2:{ rewrite (truthy_dict _ _ _ Hd). rewrite bool_decide_eq_true_2; done. }
  fold self' e'.
  split; [reflexivity |]. split; [exact Hfresh |].
  split; [exact He' |]. split; [eauto using outside_ne |].
  split; [| split; [| split]].
  - rewrite !message_at_insert_ne; [exact Hm | |]; eauto using outside_ne.
  - apply message_at_insert.
  - rewrite dict_at_insert_ne; [| congruence].
    unfold dict_at. rewrite lookup_insert_eq. reflexivity.
  - rewrite !dict_at_insert_ne; [exact Hd | |]; eauto using outside_ne.
Qed.

(** C9, the failing input.  [m = Message('hi')] has an empty [extras];
    [c = m.clone()] is a new message with the same body, sender, recipient
    and delayed flag, but [c.extras] is a different, new dictionary: after
    [c.extras['k'] = 1] the mapping of [m] is still empty. *)
Theorem message_clone_empty_extras_not_shared :
  exists m h1 c h2 om oc,
    __init__ compat_id "hi" None None false None ∅ = (m, h1) /\
    clone compat_id m h1 = Some (c, h2) /\
    message_at h2 m = Some om /\
    message_at h2 c = Some oc /\
    (body oc, frm oc, to oc, delayed oc) = (body om, frm om, to om, delayed om) /\
    dict_at h1 (extras om) = Some ∅ /\
    (m, extras om, c, extras oc) = (1, 2, 3, 4)%positive /\
    dict_at (dict_setitem (extras oc) "k" (VInt 1) h2) (extras oc)
      = Some {[ "k" := VInt 1 ]} /\
    dict_at (dict_setitem (extras oc) "k" (VInt 1) h2) (extras om) = Some ∅.
Proof.
  eexists _, _, _, _, _, _.
  split; [vm_compute; reflexivity |].
  split; [vm_compute; reflexivity |].
  split; [vm_compute; reflexivity |].
  split; [vm_compute; reflexivity |].
  repeat split; vm_compute; reflexivity.
Qed.

End CloneFacts.

Section CloneExample.

Import Message.

(** [clone] shares a mapping with one entry: the heap after
    [m = Message('hi'); m.extras['k'] = 1], then [m.clone()]. *)
Lemma clone_shares_nonempty_extras_witness :
  let h := dict_setitem 2%positive "k" (VInt 1)
             (snd (__init__ compat_id "hi" None None false None ∅)) in
  exists self' h',
    clone compat_id 1%positive h = Some (self', h') /\
    (self' ∉ dom h) /\
    message_at h' 1%positive = Some (mkMessage "hi" None None false 2%positive) /\
    message_at h' self' = Some (mkMessage "hi" None None false 2%positive) /\
    dict_at h' 2%positive = Some {[ "k" := VInt 1 ]}.
Proof.
  intros h.
  apply (clone_shares_nonempty_extras compat_id h 1%positive
           (mkMessage "hi" None None false 2%positive) {[ "k" := VInt 1 ]}).
  - vm_compute. reflexivity.
  - vm_compute. reflexivity.
  - apply insert_non_empty.
Defined.

End CloneExample.

(** ** Presence *)

Section PresenceFacts.

(** C7.  The constructor raises a [ValueError] exactly when the identifier
    is [None] or both the status and the message are [None]; with an
    identifier and at least one of the two given, it returns the presence
    built from its arguments. *)
Theorem presence_construction
    (identifier : option identifier) (status message : option string) :
  ((identifier = None \/ (status = None /\ message = None)) /\
   exists msg, Presence.__init__ identifier status message = Raise (ValueError msg))
  \/
  (exists i, identifier = Some i /\
     (status <> None \/ message <> None) /\
     Presence.__init__ identifier status message =
       Return (Presence.mkPresence i status message)).
Proof.
  destruct identifier as [i |].
  - destruct status as [st |].
    + right. exists i. split; [reflexivity |]. split; [left; discriminate |].
      reflexivity.
    + destruct message as [msg |].
      * right. exists i. split; [reflexivity |]. split; [right; discriminate |].
        reflexivity.
      * left. split; [right; split; reflexivity |]. simpl. eauto.
  - left. split; [left; reflexivity |]. simpl. eauto.
Qed.

End PresenceFacts.

(** ** Backend: the serve loop *)

Section LoopFacts.

Import Backend.

Ltac run_monad :=
  unfold turn, serve_once, _delay_reconnect, time_sleep,
    reset_reconnection_count, shutdown, try_except, emit, get, modify, raise,
    mbind, M_bind, bind, mret, M_ret, ret; cbn.

Lemma after_serve_once_eq c b :
  after_serve_once c b = if connects c then set_delay 1 (set_count 0 b) else b.
Proof.
  unfold after_serve_once.
  destruct c as [conn [r | e] si u]; destruct conn; run_monad; reflexivity.
Qed.

(** One turn: the trace grows at its end, and the turn ends the loop
    exactly when [leaves] says so.  It never raises. *)
Lemma turn_frame c b tr :
  turn c (b, tr) =
  ((after_turn c b, (tr ++ turn_events c b)%list),
   Return (if leaves c then Break else Continue)).
Proof.
  unfold after_turn, turn_events, leaves.
  destruct c as [conn [[|] | e] si u]; try destruct e;
    destruct conn, si; run_monad; rewrite <- ?app_assoc; reflexivity.
Qed.

(** The events of a turn, case by case. *)
Lemma turn_events_stop c b :
  serve c = Return true -> turn_events c b = [CallServeOnce].
Proof.
  unfold turn_events. destruct c as [conn srv si u]. simpl. intros ->.
  destruct conn; run_monad; reflexivity.
Qed.

Lemma turn_events_interrupt c b :
  serve c = Raise KeyboardInterrupt ->
  turn_events c b = [CallServeOnce; LogInterrupt].
Proof.
  unfold turn_events. destruct c as [conn srv si u]. simpl. intros ->.
  destruct conn; run_monad; reflexivity.
Qed.

Lemma turn_events_backoff c b :
  serve c <> Return true -> serve c <> Raise KeyboardInterrupt ->
  let b1 := after_serve_once c b in
  turn_events c b =
  (CallServeOnce :: exception_log c ++
   [LogReconnecting (_reconnection_delay b1) (_reconnection_count b1);
    if sleep_interrupted c
    then SleepInterrupted (_reconnection_delay b1)
    else Slept (_reconnection_delay b1)] ++
   (if sleep_interrupted c then [LogInterrupt] else []))%list.
Proof.
  intros Hstop Hint. rewrite after_serve_once_eq.
  unfold turn_events, exception_log.
  destruct c as [conn [[|] | e] si u]; simpl in *; try congruence;
    try destruct e; try congruence;
    destruct conn, si; run_monad; reflexivity.
Qed.

(** The back-end after a turn: a turn that leaves the loop changes nothing
    after [serve_once]; one that goes on stores the new delay and counts
    one more reconnection. *)
Lemma after_turn_eq c b :
  let b1 := after_serve_once c b in
  after_turn c b =
  if leaves c then b1
  else set_count (_reconnection_count b1 + 1)
         (set_delay (pre_jitter_delay b1 +
                     uniform (_reconnection_jitter b1) (sample c))%Q b1).
Proof.
  rewrite after_serve_once_eq. unfold after_turn, leaves.
  destruct c as [conn [[|] | e] si u]; try destruct e;
    destruct conn, si; run_monad; reflexivity.
Qed.

Lemma serve_loop_cons c rest b tr :
  serve_loop (c :: rest) (b, tr) =
  if leaves c
  then ((after_turn c b, (tr ++ turn_events c b)%list), Return true)
  else serve_loop rest (after_turn c b, (tr ++ turn_events c b)%list).
Proof.
  cbn [serve_loop]. unfold mbind, M_bind, bind at 1.
  rewrite turn_frame. destruct (leaves c); reflexivity.
Qed.

(** The loop: the trace grows at its end, the loop is left exactly when
    some turn of the script leaves it, and it never raises. *)
Lemma serve_loop_frame script : forall b tr,
  serve_loop script (b, tr) =
  ((after_script script b, (tr ++ loop_events script b)%list),
   Return (existsb leaves script)).
Proof.
  induction script as [| c rest IH]; intros b tr.
  - unfold after_script, loop_events. cbn. rewrite app_nil_r. reflexivity.
  - unfold after_script, loop_events.
    rewrite !serve_loop_cons. cbn [existsb].
    destruct (leaves c); cbn.
    + reflexivity.
    + rewrite !IH. cbn.
      rewrite app_assoc. reflexivity.
Qed.

Lemma loop_events_cons c rest b :
  loop_events (c :: rest) b =
  (turn_events c b ++
   if leaves c then [] else loop_events rest (after_turn c b))%list.
Proof.
  unfold loop_events at 1. rewrite serve_loop_cons.
  destruct (leaves c); cbn.
  - rewrite app_nil_r. reflexivity.
  - rewrite serve_loop_frame. reflexivity.
Qed.

Lemma after_script_cons c rest b :
  after_script (c :: rest) b =
  if leaves c then after_turn c b else after_script rest (after_turn c b).
Proof.
  unfold after_script at 1. rewrite serve_loop_cons.
  destruct (leaves c); cbn.
  - reflexivity.
  - rewrite serve_loop_frame. reflexivity.
Qed.

(** The turns before the one that leaves, then that one; what follows in
    the script is never reached. *)
Lemma loop_events_app pre c rest : forall b,
  existsb leaves pre = false -> leaves c = true ->
  loop_events (pre ++ c :: rest) b =
  (loop_events pre b ++ turn_events c (after_script pre b))%list /\
  after_script (pre ++ c :: rest) b = after_turn c (after_script pre b).
Proof.
  induction pre as [| p pre IH]; intros b Hpre Hc.
  - cbn [app]. rewrite loop_events_cons, after_script_cons, Hc.
    unfold loop_events, after_script. cbn. rewrite app_nil_r. auto.
  - cbn [existsb] in Hpre. apply orb_false_iff in Hpre as [Hp Hpre].
    cbn [app]. rewrite !loop_events_cons, !after_script_cons, Hp.
    destruct (IH (after_turn p b) Hpre Hc) as [-> ->].
    rewrite app_assoc. auto.
Qed.

Lemma count_app p tr1 tr2 :
  count p (tr1 ++ tr2) = (count p tr1 + count p tr2)%nat.
Proof. unfold count. rewrite List.filter_app, length_app. reflexivity. Qed.

(** A turn calls [serve_once] once and never [shutdown]. *)
Lemma turn_events_counts c b :
  count is_shutdown (turn_events c b) = 0%nat /\
  count is_serve_once (turn_events c b) = 1%nat.
Proof.
  unfold turn_events.
  destruct c as [conn [[|] | e] si u]; try destruct e;
    destruct conn, si; run_monad; split; reflexivity.
Qed.

Lemma loop_events_counts script : forall b,
  count is_shutdown (loop_events script b) = 0%nat /\
  (existsb leaves script = false ->
   count is_serve_once (loop_events script b) = length script).
Proof.
  induction script as [| c rest IH]; intros b.
  - split; reflexivity.
  - rewrite loop_events_cons, !count_app.
    destruct (turn_events_counts c b) as [-> ->].
    cbn [existsb length]. destruct (leaves c); cbn.
    + split; [reflexivity | discriminate].
    + destruct (IH (after_turn c b)) as [-> Hn].
      split; [reflexivity |]. intros Hrest. rewrite Hn; auto.
Qed.

(** What [serve_forever] returns on a script. *)
Lemma run_eq b script :
  run b script =
  if existsb leaves script
  then (after_script script b,
        (loop_events script b ++ [LogTriggerShutdown; CallShutdown])%list,
        Return true)
  else (after_script script b, loop_events script b, Return false).
Proof.
  unfold run, serve_forever. unfold mbind, M_bind, bind at 1.
  rewrite serve_loop_frame. cbn [app].
  destruct (existsb leaves script); [| reflexivity].
  run_monad. rewrite <- app_assoc. reflexivity.
Qed.

End LoopFacts.

(** ** Backend: shutdown at every exit of the loop *)

Section ShutdownFacts.

Import Backend.

(** C3.  [serve_forever] never raises.  It leaves its loop exactly when
    some turn gets a true value from [serve_once], or an interrupt raised by
    [serve_once], or an interrupt during the back-off sleep; then
    [shutdown()] is called once, as the last thing done, and nothing of the
    script after that turn is reached: no further [serve_once], no further
    sleep.  While the loop turns, [shutdown()] is not called.  An interrupt
    raised by [serve_once] is logged as an interrupt, not as an exception,
    and no reconnection is announced or counted for it; an interrupt during
    the sleep leaves the delay and the count as they were. *)
Theorem serve_forever_shutdown_once (b : Backend) (script : list cycle) :
  (exists b' tr,
     run b script = (b', tr, Return (existsb leaves script)) /\
     count is_shutdown tr = (if existsb leaves script then 1 else 0)%nat) /\
  (existsb leaves script = true ->
   exists b' tr0,
     run b script =
       (b', (tr0 ++ [LogTriggerShutdown; CallShutdown])%list, Return true) /\
     count is_shutdown tr0 = 0%nat) /\
  (forall pre c rest,
     script = (pre ++ c :: rest)%list ->
     existsb leaves pre = false -> leaves c = true ->
     let b1 := after_script pre b in
     let tr1 := loop_events pre b in
     let b2 := after_serve_once c b1 in
     serve_loop pre (b, []) = ((b1, tr1), Return false) /\
     run b script = run b (pre ++ [c]) /\
     count is_serve_once (snd (fst (run b script))) = S (length pre) /\
     (serve c = Return true ->
      run b script =
        (b2, (tr1 ++ [CallServeOnce; LogTriggerShutdown; CallShutdown])%list,
         Return true)) /\
     (serve c = Raise KeyboardInterrupt ->
      run b script =
        (b2, (tr1 ++ [CallServeOnce; LogInterrupt;
                      LogTriggerShutdown; CallShutdown])%list,
         Return true)) /\
     (serve c <> Return true -> serve c <> Raise KeyboardInterrupt ->
      sleep_interrupted c = true /\
      run b script =
        (b2, (tr1 ++ CallServeOnce :: exception_log c ++
                [LogReconnecting (_reconnection_delay b2) (_reconnection_count b2);
                 SleepInterrupted (_reconnection_delay b2);
                 LogInterrupt; LogTriggerShutdown; CallShutdown])%list,
         Return true))).
Proof.
  split; [| split].
  - rewrite run_eq. destruct (loop_events_counts script b) as [Hshut _].
    destruct (existsb leaves script); do 2 eexists; (split; [reflexivity |]).
    + rewrite count_app, Hshut. reflexivity.
    + exact Hshut.
  - intros Hleft. rewrite run_eq, Hleft. do 2 eexists.
    split; [reflexivity |]. apply loop_events_counts.
  - intros pre c rest -> Hpre Hc b1 tr1 b2.
    assert (Hall : forall r, existsb leaves (pre ++ c :: r) = true).
    { intros r. rewrite existsb_app. cbn. rewrite Hc, orb_true_r. reflexivity. }
    destruct (loop_events_app pre c rest b Hpre Hc) as [Hev Hb].
    destruct (loop_events_app pre c [] b Hpre Hc) as [Hev' Hb'].
    assert (Hrun : run b (pre ++ c :: rest) =
                   (after_turn c b1,
                    (tr1 ++ turn_events c b1 ++
                       [LogTriggerShutdown; CallShutdown])%list,
                    Return true)).
    { rewrite run_eq, Hall, Hev, Hb, <- app_assoc. reflexivity. }
    assert (Hb2 : after_turn c b1 = b2).
    { pose proof (after_turn_eq c b1) as H. cbv zeta in H. rewrite Hc in H.
      exact H. }
    rewrite Hb2 in Hrun.
    split; [| split; [| split; [| split; [| split]]]].
    + rewrite serve_loop_frame, Hpre. reflexivity.
    + rewrite !run_eq, !Hall, Hev, Hev', Hb, Hb'. reflexivity.
    + rewrite Hrun. cbn [fst snd]. rewrite !count_app.
      destruct (loop_events_counts pre b) as [_ Hn].
      destruct (turn_events_counts c b1) as [_ H1].
      unfold tr1. rewrite (Hn Hpre), H1. cbn. lia.
    + intros Hs. rewrite Hrun, (turn_events_stop c b1 Hs). reflexivity.
    + intros Hs. rewrite Hrun, (turn_events_interrupt c b1 Hs). reflexivity.
    + intros Hs1 Hs2.
      assert (Hsi : sleep_interrupted c = true).
      { unfold leaves in Hc. destruct (serve c) as [[|] | e]; try congruence.
        destruct e; congruence. }
      split; [exact Hsi |].
      rewrite Hrun. pose proof (turn_events_backoff c b1 Hs1 Hs2) as Hev2.
      cbv zeta in Hev2. fold b2 in Hev2. rewrite Hev2, Hsi.
      do 2 f_equal. cbn [app]. rewrite <- app_assoc. reflexivity.
Qed.

(** C3, on a run: one failed cycle, then an interrupt during the second
    sleep, with one more cycle scripted that is never reached. *)
Lemma serve_forever_shutdown_once_witness :
  let script :=
    [failure (OtherException "connection lost") 0;
     mkCycle false (Return false) true 0;
     failure (OtherException "connection lost") 0] in
  run __init__ script =
    (set_count 1 (set_delay (7 # 4) __init__),
     [CallServeOnce; LogException; LogReconnecting 1 0; Slept 1;
      CallServeOnce; LogReconnecting (7 # 4) 1; SleepInterrupted (7 # 4);
      LogInterrupt; LogTriggerShutdown; CallShutdown],
     Return true).
Proof.
  intros script.
  pose proof (proj2 (proj2 (serve_forever_shutdown_once __init__ script))
                [failure (OtherException "connection lost") 0]
                (mkCycle false (Return false) true 0)
                [failure (OtherException "connection lost") 0]
                eq_refl eq_refl eq_refl) as H.
  cbv zeta in H.
  destruct H as (_ & _ & _ & _ & _ & H).
  destruct H as [_ H]; [discriminate | discriminate |].
  exact H.
Defined.

End ShutdownFacts.

(** ** Backend: the back-off delay *)

Section BackoffFacts.

Import Backend.

(** The multiplier and the clamp are [min(delay * multiplier, max)]. *)
Lemma pre_jitter_delay_min b :
  pre_jitter_delay b =
  Qmin (_reconnection_delay b * _reconnection_multiplier b)
       (_reconnection_max_delay b).
Proof.
  unfold pre_jitter_delay, Qgtb, Qmin, GenericMinMax.gmin.
  destruct (Qcompare _ _); reflexivity.
Qed.

Lemma failed_parts c : failed c = true -> connects c = false /\ leaves c = false.
Proof.
  unfold failed. rewrite andb_true_iff, !negb_true_iff. auto.
Qed.

(** A failed cycle: the delay is multiplied, clamped and jittered, and the
    count goes up by one. *)
Lemma after_failed_turn c b :
  failed c = true ->
  after_turn c b =
  set_count (_reconnection_count b + 1)
    (set_delay (pre_jitter_delay b +
                uniform (_reconnection_jitter b) (sample c))%Q b).
Proof.
  intros Hf. apply failed_parts in Hf as [Hc Hl].
  pose proof (after_turn_eq c b) as H. cbv zeta in H.
  rewrite after_serve_once_eq, Hc, Hl in H. exact H.
Qed.

Lemma settings_after_turn c b : settings (after_turn c b) = settings b.
Proof.
  pose proof (after_turn_eq c b) as H. cbv zeta in H. rewrite H.
  rewrite after_serve_once_eq.
  destruct (leaves c), (connects c); reflexivity.
Qed.

Lemma default_settings b :
  settings b = settings __init__ ->
  _reconnection_max_delay b = 600%Q /\
  _reconnection_multiplier b = (7 # 4)%Q /\
  _reconnection_jitter b = (0, 3)%Q.
Proof. unfold settings. cbn. intros H. injection H. auto. Qed.

(** The jitter [uniform(0, 3)] lies between 0 and 3. *)
Lemma jitter_bounds u :
  (0 <= u <= 1)%Q -> (0 <= uniform (0, 3) u <= 3)%Q.
Proof. unfold uniform. cbn. intros [H0 H1]. split; lra. Qed.

Lemma Qmin_multiplier d :
  (Qmin (d * (7 # 4)) 600 == Qmin (d * 1.75) 600)%Q.
Proof.
  destruct (Q.min_spec (d * (7 # 4)) 600) as [[H1 ->] | [H1 ->]];
    destruct (Q.min_spec (d * 1.75) 600) as [[H2 ->] | [H2 ->]]; lra.
Qed.

(** Powers of the multiplier. *)
Lemma power_succ n :
  ((7 # 4) ^ Z.of_nat (S n) == (7 # 4) * (7 # 4) ^ Z.of_nat n)%Q.
Proof.
  rewrite Nat2Z.inj_succ, <- Z.add_1_l.
  rewrite Qpower_plus; [reflexivity | discriminate].
Qed.

Lemma power_ge_1 n : (1 <= (7 # 4) ^ Z.of_nat n)%Q.
Proof.
  induction n as [| n IH].
  - change (1 <= 1)%Q. lra.
  - rewrite power_succ. lra.
Qed.

Lemma power_mono n m :
  (n <= m)%nat -> ((7 # 4) ^ Z.of_nat n <= (7 # 4) ^ Z.of_nat m)%Q.
Proof.
  induction 1 as [| m Hle IH].
  - lra.
  - rewrite power_succ. pose proof (power_ge_1 m). lra.
Qed.

Lemma power_decimal n : (1.75 ^ Z.of_nat n == (7 # 4) ^ Z.of_nat n)%Q.
Proof. apply Qpower_comp; reflexivity. Qed.

(** Failed cycles without jitter, from any delay between 0 and the
    maximum: the delay is the starting delay times the power of the
    multiplier, clamped. *)
Lemma jitter_free_failures script : forall b,
  settings b = settings __init__ ->
  (0 < _reconnection_delay b <= 600)%Q ->
  forallb failed script = true ->
  Forall (fun c => sample c == 0)%Q script ->
  let b' := after_script script b in
  (_reconnection_delay b' ==
     Qmin (_reconnection_delay b * (7 # 4) ^ Z.of_nat (length script)) 600)%Q /\
  (0 < _reconnection_delay b' <= 600)%Q /\
  _reconnection_count b' = (_reconnection_count b + Z.of_nat (length script))%Z /\
  settings b' = settings __init__.
Proof.
  induction script as [| c rest IH]; intros b Hset Hd Hfail Hzero b'.
  - subst b'. unfold after_script. cbn.
    split; [| split; [exact Hd | split; [lia | exact Hset]]].
    change ((7 # 4) ^ Z.of_nat 0)%Q with 1%Q. rewrite Q.min_l; lra.
  - cbn [forallb] in Hfail. apply andb_true_iff in Hfail as [Hc Hrest].
    inversion Hzero as [| ? ? Hu Hzero']; subst.
    subst b'. rewrite after_script_cons.
    destruct (failed_parts c Hc) as [_ ->].
    pose proof (after_failed_turn c b Hc) as Hb1.
    destruct (default_settings b Hset) as (Hmax & Hmul & Hjit).
    assert (Hd1 : (_reconnection_delay (after_turn c b) ==
                   Qmin (_reconnection_delay b * (7 # 4)) 600)%Q).
    { rewrite Hb1. cbn. rewrite pre_jitter_delay_min, Hmax, Hmul, Hjit.
      unfold uniform. cbn. rewrite Hu. lra. }
    assert (Hset1 : settings (after_turn c b) = settings __init__).
    { rewrite settings_after_turn. exact Hset. }
    assert (Hpos1 : (0 < _reconnection_delay (after_turn c b) <= 600)%Q).
    { destruct (Q.min_spec (_reconnection_delay b * (7 # 4)) 600)
        as [[H1 H2] | [H1 H2]]; rewrite H2 in Hd1; lra. }
    destruct (IH (after_turn c b) Hset1 Hpos1 Hrest Hzero')
      as (Hdel & Hpos & Hcnt & Hset').
    cbv zeta in Hdel, Hpos, Hcnt, Hset'.
    split; [| split; [exact Hpos | split; [| exact Hset']]].
    + rewrite Hdel. cbn [length]. rewrite power_succ.
      pose proof (power_ge_1 (length rest)) as Hp.
      set (p := ((7 # 4) ^ Z.of_nat (length rest))%Q) in *.
      set (d := _reconnection_delay b) in *.
      set (d1 := _reconnection_delay (after_turn c b)) in *.
      destruct (Q.min_spec (d * (7 # 4)) 600) as [[H1 H2] | [H1 H2]];
        rewrite H2 in Hd1;
        destruct (Q.min_spec (d1 * p) 600) as [[H3 ->] | [H3 ->]];
        destruct (Q.min_spec (d * ((7 # 4) * p)) 600) as [[H5 ->] | [H5 ->]];
        try (rewrite Hd1 in *); nra.
    + rewrite Hcnt, Hb1. cbn. lia.
Qed.

Lemma Qmin_600_eq x y : (x == y -> Qmin x 600 == Qmin y 600)%Q.
Proof.
  intros Hxy.
  destruct (Q.min_spec x 600) as [[H1 ->] | [H1 ->]];
    destruct (Q.min_spec y 600) as [[H2 ->] | [H2 ->]]; lra.
Qed.

Lemma power_11 : ((7 # 4) ^ Z.of_nat 11 < 600)%Q.
Proof. vm_compute. reflexivity. Qed.

Lemma power_12 : (600 < (7 # 4) ^ Z.of_nat 12)%Q.
Proof. vm_compute. reflexivity. Qed.

(** [reset_reconnection_count] sets the count to 0 and the delay to 1 and
    nothing else. *)
Lemma reset_reconnection_count_eq b tr :
  reset_reconnection_count (b, tr) = ((set_delay 1 (set_count 0 b), tr), Return tt).
Proof. reflexivity. Qed.

(** C1.  The delay starts at 1 and the count at 0.  A failed cycle sets the
    delay to [min(delay * 1.75, 600) + jitter] with the jitter
    [uniform(0, 3)] between 0 and 3, the pre-jitter part being at most 600,
    and adds one to the count.  With the jitter left out (every draw 0),
    after [n] failed cycles in a row from a new back-end the delay is
    [min(1 * 1.75^n, 600)], which is the pre-jitter delay of the [n]-th
    failure; the count is [n]; the delay is 600 from the twelfth failure
    on and the plain power before.  [reset_reconnection_count()] sets the
    delay to 1 and the count to 0. *)
Theorem reconnection_backoff :
  (_reconnection_delay __init__ = 1%Q /\ _reconnection_count __init__ = 0%Z) /\
  (forall b c,
     settings b = settings __init__ -> failed c = true ->
     (0 <= sample c <= 1)%Q ->
     let jitter := uniform (0, 3)%Q (sample c) in
     (0 <= jitter <= 3)%Q /\
     (pre_jitter_delay b == Qmin (_reconnection_delay b * 1.75) 600)%Q /\
     (pre_jitter_delay b <= 600)%Q /\
     (_reconnection_delay (after_turn c b) ==
        Qmin (_reconnection_delay b * 1.75) 600 + jitter)%Q /\
     _reconnection_count (after_turn c b) = (_reconnection_count b + 1)%Z /\
     settings (after_turn c b) = settings __init__) /\
  (forall script,
     forallb failed script = true ->
     Forall (fun c => sample c == 0)%Q script ->
     let n := length script in
     let b := after_script script __init__ in
     (_reconnection_delay b == Qmin (1 * 1.75 ^ Z.of_nat n) 600)%Q /\
     (pre_jitter_delay b == Qmin (1 * 1.75 ^ Z.of_nat (S n)) 600)%Q /\
     _reconnection_count b = Z.of_nat n /\
     ((12 <= n)%nat -> (_reconnection_delay b == 600)%Q) /\
     ((n <= 11)%nat -> (_reconnection_delay b == 1.75 ^ Z.of_nat n)%Q)) /\
  (forall b tr,
     let b' := fst (fst (reset_reconnection_count (b, tr))) in
     reset_reconnection_count (b, tr) = ((b', tr), Return tt) /\
     _reconnection_delay b' = 1%Q /\ _reconnection_count b' = 0%Z /\
     settings b' = settings b).
Proof.
  split; [split; reflexivity |].
  split; [| split].
  - intros b c Hset Hc Hu jitter.
    destruct (default_settings b Hset) as (Hmax & Hmul & Hjit).
    pose proof (pre_jitter_delay_min b) as Hpre. rewrite Hmax, Hmul in Hpre.
    split; [apply jitter_bounds; exact Hu |].
    split; [rewrite Hpre; apply Qmin_multiplier |].
    split; [rewrite Hpre; apply Q.le_min_r |].
    split; [| split].
    + rewrite (after_failed_turn c b Hc). cbn. rewrite Hpre, Hjit.
      fold jitter. rewrite Qmin_multiplier. reflexivity.
    + rewrite (after_failed_turn c b Hc). reflexivity.
    + rewrite settings_after_turn. exact Hset.
  - intros script Hfail Hzero n b.
    assert (Hd0 : (0 < _reconnection_delay __init__ <= 600)%Q)
      by (cbn; split; lra).
    destruct (jitter_free_failures script __init__ eq_refl Hd0 Hfail Hzero)
      as (Hdel & Hpos & Hcnt & Hset).
    cbv zeta in Hdel, Hpos, Hcnt, Hset. fold b in Hdel, Hpos, Hcnt, Hset.
    fold n in Hdel, Hcnt.
    change (_reconnection_delay __init__) with 1%Q in Hdel.
    assert (Hdel' : (_reconnection_delay b == Qmin (1 * 1.75 ^ Z.of_nat n) 600)%Q).
    { rewrite Hdel. apply Qmin_600_eq. rewrite power_decimal. reflexivity. }
    split; [exact Hdel' |].
    split; [| split; [exact Hcnt | split]].
    + destruct (default_settings b Hset) as (Hmax & Hmul & _).
      rewrite pre_jitter_delay_min, Hmax, Hmul.
      pose proof (power_decimal (S n)) as Hdec. rewrite power_succ in Hdec.
      pose proof (power_ge_1 n) as Hp.
      set (p := ((7 # 4) ^ Z.of_nat n)%Q) in *.
      set (q := (1.75 ^ Z.of_nat (S n))%Q) in *.
      set (d := _reconnection_delay b) in *.
      destruct (Q.min_spec (1 * p) 600) as [[H1 H2] | [H1 H2]];
        rewrite H2 in Hdel;
        destruct (Q.min_spec (d * (7 # 4)) 600) as [[H3 ->] | [H3 ->]];
        destruct (Q.min_spec (1 * q) 600) as [[H5 ->] | [H5 ->]]; lra.
    + intros Hn. rewrite Hdel.
      pose proof (power_mono 12 n Hn) as Hm. pose proof power_12 as H12.
      rewrite Q.min_r; lra.
    + intros Hn. rewrite Hdel, power_decimal.
      pose proof (power_mono n 11 Hn) as Hm. pose proof power_11 as H11.
      rewrite Q.min_l; lra.
  - intros b tr b'. subst b'. rewrite reset_reconnection_count_eq.
    repeat split.
Qed.

(** C1, after thirteen failed cycles without jitter: the delay is 600 and
    the count 13. *)
Lemma reconnection_backoff_witness :
  let script := repeat (failure (OtherException "connection lost") 0) 13 in
  (_reconnection_delay (after_script script __init__) == 600)%Q /\
  _reconnection_count (after_script script __init__) = 13%Z.
Proof.
  intros script.
  assert (Hfail : forallb failed script = true) by reflexivity.
  assert (Hzero : Forall (fun c => sample c == 0)%Q script).
  { unfold script. cbn [repeat]. repeat (constructor; [reflexivity |]).
    constructor. }
  destruct (proj1 (proj2 (proj2 reconnection_backoff)) script Hfail Hzero)
    as (_ & _ & Hcnt & Hclamp & _).
  split; [apply Hclamp; cbn; lia | exact Hcnt].
Defined.

End BackoffFacts.

(** ** The back-off in binary64 arithmetic *)

Section Binary64Facts.

Import PrimFloat.
Import Backend Binary64.

Lemma delay_after_clamped k : delay_after (12 + k) = 600%float.
Proof.
  induction k as [| k IH].
  - vm_compute. reflexivity.
  - rewrite Nat.add_succ_r. cbn [delay_after]. rewrite IH.
    vm_compute. reflexivity.
Qed.

(** The floats of the run without jitter are exact: after [n] failed cycles
    the binary64 delay is the rational [min(1.75^n, 600)]. *)
Lemma delay_after_exact n :
  exists q, float_q (delay_after n) = Some q /\
            (q == Qmin ((7 # 4) ^ Z.of_nat n) 600)%Q.
Proof.
  destruct (Nat.lt_ge_cases n 12) as [Hlt | Hge].
  - do 12 (destruct n as [| n];
           [eexists; split; [vm_compute; reflexivity | vm_compute; reflexivity] |]).
    lia.
  - replace n with (12 + (n - 12))%nat by lia.
    rewrite delay_after_clamped. eexists. split; [vm_compute; reflexivity |].
    pose proof (power_mono 12 (12 + (n - 12)) ltac:(lia)) as Hm.
    pose proof power_12 as H12.
    rewrite Q.min_r; [reflexivity | lra].
Qed.

End Binary64Facts.

(** ** Backend: three failures, then a requested shutdown *)

Section ScenarioFacts.

Import Backend.

Lemma failure_failed e u :
  e <> KeyboardInterrupt -> failed (failure e u) = true.
Proof. intros He. destruct e; try congruence; reflexivity. Qed.

Lemma backoff_delays_cons c rest b :
  failed c = true ->
  backoff_delays (c :: rest) b =
  pre_jitter_delay b :: backoff_delays rest (after_turn c b).
Proof.
  intros Hc. destruct (failed_parts c Hc) as [Hconn Hl].
  cbn [backoff_delays]. rewrite Hl, after_serve_once_eq, Hconn. reflexivity.
Qed.

(** The delay after a failed cycle of a new back-end's settings. *)
Lemma delay_after_failure c b :
  settings b = settings __init__ -> failed c = true ->
  (_reconnection_delay (after_turn c b) ==
   Qmin (_reconnection_delay b * (7 # 4)) 600 + 3 * sample c)%Q /\
  (pre_jitter_delay (after_turn c b) ==
   Qmin (_reconnection_delay (after_turn c b) * (7 # 4)) 600)%Q.
Proof.
  intros Hset Hc.
  destruct (default_settings b Hset) as (Hmax & Hmul & Hjit).
  assert (Hset' : settings (after_turn c b) = settings __init__)
    by (rewrite settings_after_turn; exact Hset).
  destruct (default_settings _ Hset') as (Hmax' & Hmul' & _).
  split.
  - rewrite (after_failed_turn c b Hc). cbn.
    rewrite pre_jitter_delay_min, Hmax, Hmul, Hjit. unfold uniform. cbn. lra.
  - rewrite pre_jitter_delay_min, Hmax', Hmul'. reflexivity.
Qed.

Import BackendTrace.

(** C2, counterexample.  Three failures without jitter, then a true return:
    the three "Reconnecting in ..." records, and the three sleeps, show 1,
    1.75 and 3.0625 seconds, not 1.75, 3.06 and 5.36; and with every random
    draw at 1/2 the delays computed before the jitter is added are 1.75,
    5.69 and 12.58. *)
Lemma serve_forever_three_failures_logs_from_1 :
  let e := OtherException "connection lost" in
  let final := mkCycle false (Return true) false 0 in
  let tr := snd (fst (run __init__ [failure e 0; failure e 0; failure e 0; final])) in
  let noisy := [failure e (1 # 2); failure e (1 # 2); failure e (1 # 2); final] in
  reconnect_delays tr = [1; 7 # 4; 49 # 16]%Q /\
  slept_seconds tr = [1; 7 # 4; 49 # 16]%Q /\
  map round2 (reconnect_delays tr) = [100; 175; 306]%Z /\
  map round2 (backoff_delays noisy __init__) = [175; 569; 1258]%Z.
Proof.
  cbv zeta. split; [| split; [| split]].
  - vm_compute. reflexivity.
  - vm_compute. reflexivity.
  - vm_compute. reflexivity.
  - vm_compute. reflexivity.
Qed.

(** C2, amended.  [serve_once] raises an exception, not an interrupt, in
    its first three calls, without having connected, no sleep is
    interrupted, and the fourth call returns a true value.  Then
    [serve_forever] returns; the trace has four calls of [serve_once],
    three logged exceptions, three "Reconnecting in ..." records and one
    [shutdown()], which comes last.  Each record shows the delay stored
    before that attempt, which is the time then slept: 1, then
    [1.75 + jitter], then [1.75] times that plus the next jitter; these are
    increasing.  With the jitter left out they are 1, 1.75 and 3.0625 (1,
    1.75 and 3.06 rounded); the delays computed in the three attempts
    before the jitter is added are then 1.75, 3.0625 and 5.359375 (1.75,
    3.06, 5.36), each one the delay of the attempt after it, the last one
    stored and not slept. *)
Theorem serve_forever_three_failures_logged
    (e1 e2 e3 : exn) (u1 u2 u3 : Q) (final : cycle) :
  e1 <> KeyboardInterrupt -> e2 <> KeyboardInterrupt ->
  e3 <> KeyboardInterrupt ->
  (0 <= u1 <= 1)%Q -> (0 <= u2 <= 1)%Q ->
  serve final = Return true ->
  let script := [failure e1 u1; failure e2 u2; failure e3 u3; final] in
  let quiet := [failure e1 0; failure e2 0; failure e3 0; final] in
  let tr := snd (fst (run __init__ script)) in
  snd (run __init__ script) = Return true /\
  count is_serve_once tr = 4%nat /\
  count is_exception_log tr = 3%nat /\
  count is_reconnecting tr = 3%nat /\
  count is_shutdown tr = 1%nat /\
  List.last tr CallServeOnce = CallShutdown /\
  (exists d2 d3,
     tr = [CallServeOnce; LogException; LogReconnecting 1 0; Slept 1;
           CallServeOnce; LogException; LogReconnecting d2 1; Slept d2;
           CallServeOnce; LogException; LogReconnecting d3 2; Slept d3;
           CallServeOnce; LogTriggerShutdown; CallShutdown] /\
     reconnect_delays tr = [1; d2; d3]%Q /\
     slept_seconds tr = [1; d2; d3]%Q /\
     (d2 == 1.75 + uniform (0, 3)%Q u1)%Q /\
     (d3 == 1.75 * d2 + uniform (0, 3)%Q u2)%Q /\
     (1 < d2)%Q /\ (d2 < d3)%Q) /\
  snd (fst (run __init__ quiet)) =
    [CallServeOnce; LogException; LogReconnecting 1 0; Slept 1;
     CallServeOnce; LogException; LogReconnecting (7 # 4) 1; Slept (7 # 4);
     CallServeOnce; LogException; LogReconnecting (49 # 16) 2; Slept (49 # 16);
     CallServeOnce; LogTriggerShutdown; CallShutdown] /\
  map round2 (reconnect_delays (snd (fst (run __init__ quiet))))
    = [100; 175; 306]%Z /\
  backoff_delays quiet __init__ = [7 # 4; 49 # 16; 343 # 64]%Q /\
  map round2 (backoff_delays quiet __init__) = [175; 306; 536]%Z /\
  _reconnection_delay
    (after_script [failure e1 0; failure e2 0; failure e3 0] __init__)
    = (343 # 64)%Q.
Proof.
  intros He1 He2 He3 Hu1 Hu2 Hfinal script quiet tr.
  assert (Hstop : leaves final = true) by (unfold leaves; rewrite Hfinal; reflexivity).
  assert (Hquiet : snd (fst (run __init__ quiet)) =
    [CallServeOnce; LogException; LogReconnecting 1 0; Slept 1;
     CallServeOnce; LogException; LogReconnecting (7 # 4) 1; Slept (7 # 4);
     CallServeOnce; LogException; LogReconnecting (49 # 16) 2; Slept (49 # 16);
     CallServeOnce; LogTriggerShutdown; CallShutdown]).
  { subst quiet. destruct final as [conn srv si u]. cbn in Hfinal. subst srv.
    destruct e1, e2, e3; try congruence; destruct conn; reflexivity. }
  set (b1 := after_turn (failure e1 u1) __init__).
  set (b2 := after_turn (failure e2 u2) b1).
  assert (Htrace :
    tr = [CallServeOnce; LogException; LogReconnecting 1 0; Slept 1;
          CallServeOnce; LogException;
          LogReconnecting (_reconnection_delay b1) 1;
          Slept (_reconnection_delay b1);
          CallServeOnce; LogException;
          LogReconnecting (_reconnection_delay b2) 2;
          Slept (_reconnection_delay b2);
          CallServeOnce; LogTriggerShutdown; CallShutdown] /\
    snd (run __init__ script) = Return true).
  { subst tr script b2 b1. destruct final as [conn srv si u].
    cbn in Hfinal. subst srv.
    destruct e1, e2, e3; try congruence; destruct conn; split; reflexivity. }
  destruct Htrace as (Htr & Hret).
  split; [exact Hret |].
  rewrite Htr.
  do 5 (split; [reflexivity |]).
  pose proof (failure_failed e1 u1 He1) as Hf1.
  pose proof (failure_failed e2 u2 He2) as Hf2.
  split; [| split; [| split; [| split; [| split]]]].
  - exists (_reconnection_delay b1), (_reconnection_delay b2).
    do 3 (split; [reflexivity |]).
    assert (Hset1 : settings b1 = settings __init__)
      by apply settings_after_turn.
    destruct (delay_after_failure (failure e1 u1) __init__ eq_refl Hf1)
      as [Hd1 _].
    destruct (delay_after_failure (failure e2 u2) b1 Hset1 Hf2) as [Hd2 _].
    fold b1 in Hd1. fold b2 in Hd2.
    change (sample (failure e1 u1)) with u1 in Hd1.
    change (sample (failure e2 u2)) with u2 in Hd2.
    change (_reconnection_delay __init__) with 1%Q in Hd1.
    rewrite Q.min_l in Hd1 by lra.
    rewrite Q.min_l in Hd2 by lra.
    unfold uniform. cbn [fst snd].
    repeat split; lra.
  - exact Hquiet.
  - rewrite Hquiet. reflexivity.
  - subst quiet. destruct e1, e2, e3; try congruence;
      cbn [backoff_delays]; rewrite Hstop; reflexivity.
  - subst quiet. destruct e1, e2, e3; try congruence;
      cbn [backoff_delays]; rewrite Hstop; reflexivity.
  - destruct e1, e2, e3; try congruence; reflexivity.
Qed.

(** C2, amended, with connection errors and no jitter. *)
Lemma serve_forever_three_failures_logged_witness :
  let script :=
    [failure (OtherException "connection lost") 0;
     failure (OtherException "connection lost") 0;
     failure (OtherException "connection lost") 0;
     mkCycle false (Return true) false 0] in
  snd (run __init__ script) = Return true /\
  count is_reconnecting (snd (fst (run __init__ script))) = 3%nat /\
  count is_shutdown (snd (fst (run __init__ script))) = 1%nat /\
  map round2 (reconnect_delays (snd (fst (run __init__ script))))
    = [100; 175; 306]%Z /\
  map round2 (backoff_delays script __init__) = [175; 306; 536]%Z.
Proof.
  intros script.
  assert (Hu : (0 <= 0 <= 1)%Q) by (split; lra).
  destruct (serve_forever_three_failures_logged
              (OtherException "connection lost")
              (OtherException "connection lost")
              (OtherException "connection lost")
              0 0 0 (mkCycle false (Return true) false 0)
              ltac:(discriminate) ltac:(discriminate) ltac:(discriminate)
              Hu Hu eq_refl)
    as (Hret & _ & _ & Hrec & Hshut & _ & _ & _ & Hlogged & _ & Hround & _).
  repeat split; assumption.
Defined.

End ScenarioFacts.

(** ** Stream: sequences of calls *)

Section StreamCallFacts.

Import Stream StreamCalls.

(** A call either leaves the status as it is or assigns one of the
    constants of the transitions. *)
Lemma call_status o s :
  status (fst (call o s)) = status s \/
  (status (fst (call o s)) <> STREAM_WAITING_TO_START /\
   In (status (fst (call o s))) assigned_statuses).
Proof.
  destruct o; simpl.
  - unfold accept. destruct (negb _); simpl; [auto |].
    right. split; [discriminate | cbn; auto].
  - unfold reject. destruct (negb _); simpl; [auto |].
    right. split; [discriminate | cbn; auto 6].
  - right. split; [discriminate | cbn; auto 6].
  - unfold success. destruct (negb _); simpl; [auto |].
    right. split; [discriminate | cbn; auto].
  - auto.
Qed.

Lemma run_status_assigned ops : forall s,
  In (status s) assigned_statuses -> In (status (run ops s)) assigned_statuses.
Proof.
  induction ops as [| o rest IH]; intros s Hs; [exact Hs |].
  cbn [run]. apply IH.
  destruct (call_status o s) as [-> | [_ H]]; assumption.
Qed.

(** Each of the five statuses is reached from a new stream. *)
Lemma status_reached i src n sz ty st :
  In st assigned_statuses ->
  exists ops, status (run ops (__init__ i src n sz ty)) = st.
Proof.
  cbn. intros [<- | [<- | [<- | [<- | [<- | []]]]]].
  - exists []. reflexivity.
  - exists [Accept]. reflexivity.
  - exists [Accept; Success]. reflexivity.
  - exists [Error None]. reflexivity.
  - exists [Reject]. reflexivity.
Qed.

(** Whatever is called on a new stream, in whatever order, its status is
    one of "pending", "in progress", "success", "error" and "rejected", each
    of which some sequence reaches; it is never "paused". *)
Theorem stream_status_never_paused i src n sz ty :
  (forall ops,
     In (status (run ops (__init__ i src n sz ty))) assigned_statuses /\
     status (run ops (__init__ i src n sz ty)) <> STREAM_PAUSED) /\
  (forall st, In st assigned_statuses <->
     exists ops, status (run ops (__init__ i src n sz ty)) = st).
Proof.
  assert (Hin : forall ops,
    In (status (run ops (__init__ i src n sz ty))) assigned_statuses).
  { intros ops. apply run_status_assigned. cbn. auto. }
  split.
  - intros ops. split; [apply Hin |].
    intros Hp. specialize (Hin ops). rewrite Hp in Hin. cbn in Hin.
    repeat (destruct Hin as [Hin | Hin]; [discriminate |]). exact Hin.
  - intros st. split; [apply status_reached |].
    intros [ops <-]. apply Hin.
Qed.

Lemma call_keeps_error o s :
  status s = STREAM_ERROR -> status (fst (call o s)) = STREAM_ERROR.
Proof.
  intros Hs. unfold status in Hs.
  destruct o; simpl; try reflexivity.
  - unfold accept. rewrite Hs. exact Hs.
  - unfold reject. rewrite Hs. exact Hs.
  - unfold success. rewrite Hs. exact Hs.
  - exact Hs.
Qed.

Lemma call_reason o s :
  _reason (fst (call o s)) =
  match o with Error r => default DEFAULT_REASON r | _ => _reason s end.
Proof.
  destruct o; simpl; try reflexivity.
  - unfold accept. destruct (negb _); reflexivity.
  - unfold reject. destruct (negb _); reflexivity.
  - unfold success. destruct (negb _); reflexivity.
Qed.

Lemma run_keeps_error ops : forall s,
  status s = STREAM_ERROR -> status (run ops s) = STREAM_ERROR.
Proof.
  induction ops as [| o rest IH]; intros s Hs; [exact Hs |].
  cbn [run]. apply IH, call_keeps_error, Hs.
Qed.

Lemma run_reason ops : forall s,
  _reason (run ops s) = last_reason ops (_reason s).
Proof.
  induction ops as [| o rest IH]; intros s; [reflexivity |].
  cbn [run]. rewrite IH, call_reason. destruct o; reflexivity.
Qed.

(** A call other than [error] never makes the status "error". *)
Lemma call_no_error o s :
  is_error_call o = false -> status s <> STREAM_ERROR ->
  status (fst (call o s)) <> STREAM_ERROR.
Proof.
  intros Ho Hs. destruct o; simpl in *; try discriminate.
  - unfold accept. destruct (negb _); simpl; [exact Hs | discriminate].
  - unfold reject. destruct (negb _); simpl; [exact Hs | discriminate].
  - unfold success. destruct (negb _); simpl; [exact Hs | discriminate].
  - exact Hs.
Qed.

(** "error" is final and only [error] leads to it: after any sequence of
    calls on a stream that is not in error, the status is "error" exactly
    when the sequence has an [error] call, and from then on no call changes
    it; the reason stored is the one of the last [error] call, or the
    earlier reason when there is none. *)
Theorem stream_error_is_final (ops : list op) (s : Stream) :
  status s <> STREAM_ERROR ->
  (status (run ops s) = STREAM_ERROR <-> existsb is_error_call ops = true) /\
  (forall more, status (run ops s) = STREAM_ERROR ->
     status (run (ops ++ more) s) = STREAM_ERROR) /\
  _reason (run ops s) = last_reason ops (_reason s).
Proof.
  intros Hs. split; [| split].
  - revert s Hs. induction ops as [| o rest IH]; intros s Hs.
    + cbn. split; [intros H; contradiction | discriminate].
    + cbn [run existsb]. destruct (is_error_call o) eqn:Ho.
      * split; [reflexivity |]. intros _. apply run_keeps_error.
        destruct o; try discriminate. reflexivity.
      * apply IH. apply call_no_error; assumption.
  - intros more Herr. clear Hs. revert s Herr.
    induction ops as [| o rest IH]; intros s Herr.
    + apply run_keeps_error. exact Herr.
    + cbn [run app] in *. apply IH. exact Herr.
  - apply run_reason.
Qed.

(** On a new stream, [error('disk full')] after [accept()] is final:
    [success()] comes too late. *)
Lemma stream_error_is_final_witness :
  let s := __init__ (room_obj "#err") [] None None None in
  status (run ([Accept; Error (Some "disk full")] ++ [Success; Accept]) s)
    = STREAM_ERROR /\
  _reason (run [Accept; Error (Some "disk full")] s) = "disk full".
Proof.
  intros s.
  assert (Hs : status s <> STREAM_ERROR) by discriminate.
  destruct (stream_error_is_final [Accept; Error (Some "disk full")] s Hs)
    as (_ & Hfinal & Hreason).
  split; [apply Hfinal; reflexivity | exact Hreason].
Defined.

(** A clone is a new transfer whatever became of the original: it keeps the
    identifier, name, size and type, reads from the new source, is
    "pending" with nothing transferred and the default reason, and
    [accept()] on it succeeds; the original is not touched. *)
Theorem stream_clone_restarts (s : Stream) (new_fsource : BinaryIO) :
  let c := clone new_fsource s in
  (identifier_ c, name c, size c, stream_type c) =
    (identifier_ s, name s, size s, stream_type s) /\
  fsource c = new_fsource /\
  status c = STREAM_WAITING_TO_START /\
  transfered c = 0%Z /\
  _reason c = DEFAULT_REASON /\
  accept c = (set_status STREAM_TRANSFER_IN_PROGRESS c, Return tt) /\
  forall ops, clone new_fsource (run ops s) = c.
Proof.
  intros c. repeat split.
  intros ops. subst c. revert s.
  induction ops as [| o rest IH]; intros s; [reflexivity |].
  cbn [run]. rewrite IH. unfold clone.
  destruct o; simpl; try reflexivity.
  - unfold accept. destruct (negb _); reflexivity.
  - unfold reject. destruct (negb _); reflexivity.
  - unfold success. destruct (negb _); reflexivity.
Qed.

End StreamCallFacts.

(** ** Message: construction on the heap *)

Section MessageHeapFacts.

Import Message MessageText.

Variable compat_str : string -> string.

(** The two ways the constructor ends: it keeps the mapping it was given,
    which is true, or it makes a new empty dictionary. *)
Lemma init_cases body frm to delayed extras (h : heap) :
  let self := fresh (dom h) in
  let d := fresh ({[self]} ∪ dom h) in
  (exists l, extras = Some l /\ truthy h extras = true /\
     __init__ compat_str body frm to delayed extras h =
     (self, <[self := MessageObj (mkMessage (compat_str body) frm to delayed l)]> h))
  \/
  (truthy h extras = false /\
   __init__ compat_str body frm to delayed extras h =
   (self, <[self := MessageObj (mkMessage (compat_str body) frm to delayed d)]>
            (<[d := DictObj ∅]> h))).
Proof.
  intros self d. destruct (truthy h extras) eqn:Ht.
  - left. destruct extras as [l |]; [| discriminate].
    exists l. split; [reflexivity |]. split; [reflexivity |].
    apply init_keeps_extras. exact Ht.
  - right. split; [reflexivity |]. apply init_new_extras. exact Ht.
Qed.

Lemma fresh_pair (h : heap) :
  let self := fresh (dom h) in
  let d := fresh ({[self]} ∪ dom h) in
  (self ∉ dom h) /\ (d ∉ dom h) /\ d <> self.
Proof.
  intros self d.
  pose proof (is_fresh (dom h)) as H1.
  pose proof (is_fresh ({[self]} ∪ dom h)) as H2.
  fold self in H1. fold d in H2.
  split; [exact H1 |]. split; set_solver.
Qed.

(** The constructor allocates and never overwrites: the new message is at a
    location that was free, and every object of the heap is still there,
    unchanged. *)
Lemma init_frame body frm to delayed extras (h : heap) :
  let r := __init__ compat_str body frm to delayed extras h in
  (fst r ∉ dom h) /\
  (forall l, l ∈ dom h -> snd r !! l = h !! l).
Proof.
  intros r. subst r.
  destruct (fresh_pair h) as (Hself & Hd & Hne). cbv zeta in Hself, Hd, Hne.
  destruct (init_cases body frm to delayed extras h)
    as [(l & _ & _ & ->) | (_ & ->)]; cbn [fst snd];
    (split; [exact Hself |]); intros l0 Hl0.
  - rewrite lookup_insert_ne; [reflexivity | eauto using outside_ne].
  - rewrite !lookup_insert_ne; [reflexivity | |]; eauto using outside_ne.
Qed.

Lemma message_at_lookup (h h' : heap) l :
  h' !! l = h !! l -> message_at h' l = message_at h l.
Proof. unfold message_at. intros ->. reflexivity. Qed.

Lemma dict_at_lookup (h h' : heap) l :
  h' !! l = h !! l -> dict_at h' l = dict_at h l.
Proof. unfold dict_at. intros ->. reflexivity. Qed.

Lemma init_extras_present body frm to delayed extras (h : heap) :
  extras_present h ->
  (forall l, extras = Some l -> is_Some (dict_at h l)) ->
  extras_present (snd (__init__ compat_str body frm to delayed extras h)).
Proof.
  intros Hwf Harg.
  destruct (fresh_pair h) as (Hself & Hd & Hne). cbv zeta in Hself, Hd, Hne.
  pose proof (init_frame body frm to delayed extras h) as [_ Hframe].
  cbv zeta in Hframe.
  assert (Hold : forall l0 m0,
    l0 ∈ dom h ->
    message_at (snd (__init__ compat_str body frm to delayed extras h)) l0
      = Some m0 ->
    is_Some (dict_at (snd (__init__ compat_str body frm to delayed extras h))
                     (Message.extras m0))).
  { intros l0 m0 Hl0 Hm0.
    rewrite (message_at_lookup _ _ _ (Hframe l0 Hl0)) in Hm0.
    destruct (Hwf l0 m0 Hm0) as [d0 Hd0].
    rewrite (dict_at_lookup _ _ _ (Hframe _ (dict_at_dom _ _ _ Hd0))).
    eauto. }
  destruct (init_cases body frm to delayed extras h)
    as [(l & -> & _ & Heq) | (_ & Heq)]; rewrite Heq in *; cbn [snd] in *;
    intros l0 m0 Hm0.
  - destruct (decide (l0 = fresh (dom h))) as [-> | Hl0].
    + rewrite message_at_insert in Hm0. injection Hm0 as <-. cbn.
      destruct (Harg l eq_refl) as [d0 Hd0].
      rewrite dict_at_insert_ne; [eauto |].
      eauto using outside_ne, dict_at_dom.
    + apply (Hold l0 m0); [| exact Hm0].
      rewrite message_at_insert_ne in Hm0 by congruence.
      eapply message_at_dom, Hm0.
  - destruct (decide (l0 = fresh (dom h))) as [-> | Hl0].
    + rewrite message_at_insert in Hm0. injection Hm0 as <-. cbn.
      rewrite dict_at_insert_ne by congruence.
      unfold dict_at. rewrite lookup_insert_eq. eauto.
    + apply (Hold l0 m0); [| exact Hm0].
      rewrite message_at_insert_ne in Hm0 by congruence.
      destruct (decide (l0 = fresh ({[fresh (dom h)]} ∪ dom h))) as [-> | Hl0'].
      * unfold message_at in Hm0. rewrite lookup_insert_eq in Hm0. discriminate.
      * rewrite message_at_insert_ne in Hm0 by congruence.
        eapply message_at_dom, Hm0.
Qed.

(** Messages and their mappings stay consistent: on a heap where every
    message refers to a mapping, the constructor (given no [extras] or a
    mapping of the heap), [clone] and a write into a mapping give such a
    heap again, and the first two change no object that was there. *)
Theorem message_heap_consistent (h : heap) :
  extras_present h ->
  (forall body frm to delayed extras,
     (forall l, extras = Some l -> is_Some (dict_at h l)) ->
     let r := __init__ compat_str body frm to delayed extras h in
     extras_present (snd r) /\ (fst r ∉ dom h) /\
     forall l, l ∈ dom h -> snd r !! l = h !! l) /\
  (forall self c h',
     clone compat_str self h = Some (c, h') ->
     extras_present h' /\ (c ∉ dom h) /\
     forall l, l ∈ dom h -> h' !! l = h !! l) /\
  (forall l k v, extras_present (dict_setitem l k v h)).
Proof.
  intros Hwf. split; [| split].
  - intros body frm to delayed extras Harg r. subst r.
    split; [apply init_extras_present; assumption | apply init_frame].
  - intros self c h' Hclone. unfold clone in Hclone.
    destruct (message_at h self) as [m |] eqn:Hm; [| discriminate].
    injection Hclone as Hclone.
    pose proof (init_frame (_body m) (_from m) (_to m) (_delayed m)
                  (Some (Message.extras m)) h) as Hframe.
    pose proof (init_extras_present (_body m) (_from m) (_to m) (_delayed m)
                  (Some (Message.extras m)) h Hwf) as Hkeep.
    cbv zeta in Hframe. rewrite Hclone in Hframe, Hkeep. cbn [fst snd] in *.
    split; [| exact Hframe].
    apply Hkeep. intros l [= <-]. eapply Hwf, Hm.
  - intros l k v l0 m0. unfold dict_setitem.
    destruct (h !! l) as [[d | m] |] eqn:Hl; try apply Hwf.
    intros Hm0.
    assert (Hne : l <> l0).
    { intros <-. unfold message_at in Hm0. rewrite lookup_insert_eq in Hm0.
      discriminate. }
    rewrite message_at_insert_ne in Hm0 by exact Hne.
    destruct (Hwf l0 m0 Hm0) as [d0 Hd0].
    destruct (decide (l = Message.extras m0)) as [<- | Hne'].
    + unfold dict_at. rewrite lookup_insert_eq. eauto.
    + rewrite dict_at_insert_ne by exact Hne'. eauto.
Qed.

(** Two messages built without [extras] never share their mapping: each
    gets a new empty dictionary of its own, and a write into one is not
    seen through the other. *)
Theorem message_default_extras_apart
    (h : heap) body1 frm1 to1 delayed1 body2 frm2 to2 delayed2 :
  let r1 := __init__ compat_str body1 frm1 to1 delayed1 None h in
  let r2 := __init__ compat_str body2 frm2 to2 delayed2 None (snd r1) in
  exists m1 m2,
    message_at (snd r2) (fst r1) = Some m1 /\
    message_at (snd r2) (fst r2) = Some m2 /\
    fst r1 <> fst r2 /\
    Message.extras m1 <> Message.extras m2 /\
    dict_at (snd r2) (Message.extras m1) = Some ∅ /\
    dict_at (snd r2) (Message.extras m2) = Some ∅ /\
    forall k v,
      dict_at (dict_setitem (Message.extras m1) k v (snd r2)) (Message.extras m1)
        = Some {[ k := v ]} /\
      dict_at (dict_setitem (Message.extras m1) k v (snd r2)) (Message.extras m2)
        = Some ∅.
Proof.
  intros r1 r2.
  pose proof (init_new_extras compat_str body1 frm1 to1 delayed1 None h eq_refl)
    as H1.
  fold r1 in H1.
  pose proof (init_new_extras compat_str body2 frm2 to2 delayed2 None (snd r1)
                eq_refl) as H2.
  fold r2 in H2.
  destruct (fresh_pair h) as (Hs1 & Hd1 & Hne1).
  destruct (fresh_pair (snd r1)) as (Hs2 & Hd2 & Hne2).
  cbv zeta in Hs1, Hd1, Hne1, Hs2, Hd2, Hne2.
  set (s1 := fresh (dom h)) in *.
  set (d1 := fresh ({[s1]} ∪ dom h)) in *.
  set (s2 := fresh (dom (snd r1))) in *.
  set (d2 := fresh ({[s2]} ∪ dom (snd r1))) in *.
  assert (Hdom1 : s1 ∈ dom (snd r1) /\ d1 ∈ dom (snd r1)).
  { rewrite H1. cbn [snd]. rewrite !dom_insert_L. set_solver. }
  destruct Hdom1 as [Hs1in Hd1in].
  assert (Hs21 : s2 <> s1) by eauto using outside_ne.
  assert (Hs2d1 : s2 <> d1) by eauto using outside_ne.
  assert (Hd2s1 : d2 <> s1) by eauto using outside_ne.
  assert (Hd2d1 : d2 <> d1) by eauto using outside_ne.
  assert (Hm1 : message_at (snd r2) s1 =
                Some (mkMessage (compat_str body1) frm1 to1 delayed1 d1)).
  { rewrite H2. cbn [snd]. rewrite !message_at_insert_ne by congruence.
    rewrite H1. cbn [snd]. apply message_at_insert. }
  assert (Hm2 : message_at (snd r2) s2 =
                Some (mkMessage (compat_str body2) frm2 to2 delayed2 d2)).
  { rewrite H2. cbn [snd]. apply message_at_insert. }
  assert (He1 : snd r2 !! d1 = Some (DictObj ∅)).
  { rewrite H2. cbn [snd]. rewrite !lookup_insert_ne by congruence.
    rewrite H1. cbn [snd]. rewrite lookup_insert_ne by congruence.
    apply lookup_insert_eq. }
  assert (He2 : snd r2 !! d2 = Some (DictObj ∅)).
  { rewrite H2. cbn [snd]. rewrite lookup_insert_ne by congruence.
    apply lookup_insert_eq. }
  exists (mkMessage (compat_str body1) frm1 to1 delayed1 d1),
         (mkMessage (compat_str body2) frm2 to2 delayed2 d2).
  rewrite H1 at 1 2. rewrite H2 at 2 4. cbn [fst Message.extras _extras].
  split; [exact Hm1 |]. split; [exact Hm2 |].
  split; [congruence |]. split; [congruence |].
  split; [unfold dict_at; rewrite He1; reflexivity |].
  split; [unfold dict_at; rewrite He2; reflexivity |].
  intros k v. unfold dict_setitem. rewrite He1. split.
  - unfold dict_at. rewrite lookup_insert_eq. reflexivity.
  - rewrite dict_at_insert_ne by congruence.
    unfold dict_at. rewrite He2. reflexivity.
Qed.

(** [build_message(text)] gives a message with the text as body, no sender,
    no recipient, not delayed and an empty mapping of its own; it is neither
    direct nor group, and its deprecated [type] is 'groupchat'. *)
Theorem build_message_plain (text filename lineno : string) (h : heap) :
  let r := build_message compat_str text h in
  exists m,
    message_at (snd r) (fst r) = Some m /\
    (body m, frm m, to m, delayed m) = (compat_str text, None, None, false) /\
    __str__ m = compat_str text /\
    (Message.extras m ∉ dom h) /\
    dict_at (snd r) (Message.extras m) = Some ∅ /\
    is_direct m = false /\ is_group m = false /\
    snd (type filename lineno m) = "groupchat".
Proof.
  intros r. subst r. unfold build_message.
  rewrite (init_new_extras compat_str text None None false None h eq_refl).
  destruct (fresh_pair h) as (Hself & Hd & Hne). cbv zeta in Hself, Hd, Hne.
  cbn [fst snd]. eexists. split; [apply message_at_insert |].
  cbn. split; [reflexivity |]. split; [reflexivity |]. split; [exact Hd |].
  split; [| repeat split].
  rewrite dict_at_insert_ne by congruence.
  unfold dict_at. rewrite lookup_insert_eq. reflexivity.
Qed.

End MessageHeapFacts.

Section MessageHeapExample.

Import Message MessageText.

(** [m = Message('hi')] on an empty heap, then [m.clone()]: the heap stays
    consistent and [m] is still the object it was. *)
Lemma message_heap_consistent_witness :
  let h := snd (build_message compat_id "hi" ∅) in
  exists c h',
    clone compat_id 1%positive h = Some (c, h') /\
    extras_present h' /\
    h' !! 1%positive = h !! 1%positive.
Proof.
  intros h.
  assert (H0 : extras_present ∅).
  { intros l m Hm. unfold message_at in Hm. rewrite lookup_empty in Hm.
    discriminate. }
  assert (Hh : extras_present h).
  { apply (proj1 (message_heap_consistent compat_id ∅ H0)
             "hi" None None false None).
    intros l Hl. discriminate. }
  destruct (clone compat_id 1%positive h) as [[c h'] |] eqn:Hclone;
    [| vm_compute in Hclone; discriminate].
  exists c, h'. split; [reflexivity |].
  destruct (proj1 (proj2 (message_heap_consistent compat_id h Hh)) _ _ _ Hclone)
    as (Hwf & _ & Hframe).
  split; [exact Hwf |].
  apply Hframe. apply elem_of_dom. eexists. vm_compute. reflexivity.
Defined.

(** The deprecated [type] is 'chat' exactly for a direct message and
    'groupchat' for every other one, so also for a message with no
    recipient, which is not a group message; each read logs the
    deprecation warning with the caller's file and line. *)
Theorem message_type_groupchat_by_default (filename lineno : string) (m : Message) :
  (snd (type filename lineno m) = "chat" <-> is_direct m = true) /\
  (snd (type filename lineno m) = "groupchat" <-> is_direct m = false) /\
  (is_group m = true -> snd (type filename lineno m) = "groupchat") /\
  (to m = None ->
   snd (type filename lineno m) = "groupchat" /\ is_group m = false) /\
  fst (type filename lineno m) =
    (" " ++ filename ++ ":" ++ lineno ++ " : ") ++
    "msg.type is deprecated and will be removed soon ! Use msg.is_direct or msg.is_group.".
Proof.
  unfold type. cbn [fst snd].
  split; [| split; [| split; [| split]]].
  - destruct (is_direct m); split; intros H; try reflexivity; discriminate.
  - destruct (is_direct m); split; intros H; try reflexivity; discriminate.
  - unfold is_direct, is_group. destruct (to m) as [i |]; simpl.
    + destruct (type_of i); vm_compute; congruence.
    + discriminate.
  - unfold is_direct, is_group. intros ->. split; reflexivity.
  - reflexivity.
Qed.

End MessageHeapExample.

(** ** Presence: the string conversion *)

Section PresenceTextFacts.

Import Presence PresenceText.

(** [__init__] sets [_identifier], [_status] and [_message] and no other
    attribute. *)
Lemma instance_attr_set p name :
  returned_attr (instance_attr p name) = true <->
  name = "_identifier" \/ name = "_status" \/ name = "_message".
Proof.
  unfold instance_attr, instance_dict, returned_attr.
  destruct (decide (name = "_identifier")) as [-> | H1];
    [rewrite lookup_insert_eq; tauto |].
  rewrite lookup_insert_ne by congruence.
  destruct (decide (name = "_status")) as [-> | H2];
    [rewrite lookup_insert_eq; tauto |].
  rewrite lookup_insert_ne by congruence.
  destruct (decide (name = "_message")) as [-> | H3];
    [rewrite lookup_insert_eq; tauto |].
  rewrite lookup_insert_ne by congruence.
  rewrite lookup_empty. split; [discriminate | tauto].
Qed.

(** [str(presence)] never returns: [__str__] starts by reading [self._nick],
    an attribute no [Presence] has, so it raises an [AttributeError]
    whatever the identifier, the status and the message are, and so does
    [__unicode__]; the accessors of the three attributes that do exist
    return them. *)
Theorem presence_str_raises
    (str_identifier : identifier -> string) (bool_identifier : identifier -> bool)
    (p : Presence) :
  __str__ str_identifier bool_identifier p =
    Raise (OtherException
             "AttributeError: 'Presence' object has no attribute '_nick'") /\
  __unicode__ str_identifier bool_identifier p =
    __str__ str_identifier bool_identifier p /\
  instance_attr p "_identifier" = Return (AnIdentifier (occupant p)) /\
  instance_attr p "_status" = Return (AText (status p)) /\
  instance_attr p "_message" = Return (AText (message p)) /\
  (forall name, returned_attr (instance_attr p name) = true <->
     name = "_identifier" \/ name = "_status" \/ name = "_message").
Proof.
  split; [| split; [reflexivity |]].
  - unfold __str__, add_field at 1.
    assert (Hnick : instance_attr p "_nick" =
      Raise (OtherException
               "AttributeError: 'Presence' object has no attribute '_nick'")).
    { unfold instance_attr, instance_dict.
      rewrite !lookup_insert_ne by discriminate.
      rewrite lookup_empty. reflexivity. }
    rewrite Hnick. reflexivity.
  - split; [| split; [| split]].
    + unfold instance_attr, instance_dict. rewrite lookup_insert_eq. reflexivity.
    + unfold instance_attr, instance_dict.
      rewrite lookup_insert_ne by discriminate.
      rewrite lookup_insert_eq. reflexivity.
    + unfold instance_attr, instance_dict.
      rewrite !lookup_insert_ne by discriminate.
      rewrite lookup_insert_eq. reflexivity.
    + apply instance_attr_set.
Qed.

End PresenceTextFacts.

(** ** The identifier classes as an order *)

Section ClassFacts.

(** [issubclass] orders the four classes: it is reflexive, transitive and
    antisymmetric, every class is a subclass of [Identifier], and [Person],
    [RoomOccupant] and [Room] are unrelated to one another; so every
    identifier object is an [Identifier], and [None] is an instance of no
    class. *)
Theorem issubclass_order :
  (forall c, issubclass c c = true) /\
  (forall c d e, issubclass c d = true -> issubclass d e = true ->
     issubclass c e = true) /\
  (forall c d, issubclass c d = true -> issubclass d c = true -> c = d) /\
  (forall c, issubclass c Identifier = true) /\
  (forall c d, In c [Person; RoomOccupant; Room] ->
     In d [Person; RoomOccupant; Room] ->
     issubclass c d = true -> c = d) /\
  (forall i, isinstance (Some i) Identifier = true) /\
  (forall c, isinstance None c = false).
Proof.
  split; [intros []; reflexivity |].
  split; [intros [] [] []; vm_compute; intros; congruence |].
  split; [intros [] []; vm_compute; intros; congruence |].
  split; [intros []; reflexivity |].
  split; [intros [] [] Hc Hd; vm_compute; intros; try congruence;
          cbn in Hc, Hd; intuition discriminate |].
  split; [intros []; reflexivity | reflexivity].
Qed.

End ClassFacts.

(** ** Backend: what every trace of the loop shows *)

Section TraceFacts.

Import Backend BackendTrace.

Ltac forall_events :=
  cbn [app];
  repeat first [apply List.Forall_nil | apply List.Forall_cons];
  try exact I.

(** The three ways [serve_once] can end, as the loop tells them apart. *)
Lemma serve_cases c :
  serve c = Return true \/ serve c = Raise KeyboardInterrupt \/
  (serve c <> Return true /\ serve c <> Raise KeyboardInterrupt /\
   leaves c = sleep_interrupted c).
Proof.
  unfold leaves. destruct (serve c) as [[|] | e].
  - auto.
  - right. right. split; [discriminate | split; [discriminate | reflexivity]].
  - destruct e; auto; right; right;
      (split; [discriminate | split; [discriminate | reflexivity]]).
Qed.

Lemma in_range_after_serve_once c b :
  in_range b -> in_range (after_serve_once c b).
Proof.
  intros [Hset Hd]. rewrite after_serve_once_eq.
  destruct (connects c); [| split; assumption].
  split; [exact Hset | cbn; lra].
Qed.

(** A turn keeps the delay between 1 and 603. *)
Lemma in_range_after_turn c b :
  in_range b -> (0 <= sample c <= 1)%Q -> in_range (after_turn c b).
Proof.
  intros Hb Hu. pose proof (in_range_after_serve_once c b Hb) as [Hset Hd].
  pose proof (after_turn_eq c b) as H. cbv zeta in H. rewrite H.
  destruct (leaves c); [split; assumption |].
  destruct (default_settings _ Hset) as (Hmax & Hmul & Hjit).
  split; [exact Hset |]. cbn.
  rewrite pre_jitter_delay_min, Hmax, Hmul, Hjit.
  pose proof (jitter_bounds (sample c) Hu) as Hj.
  set (d := _reconnection_delay (after_serve_once c b)) in *.
  destruct (Q.min_spec (d * (7 # 4)) 600) as [[H1 ->] | [H1 ->]]; lra.
Qed.

Lemma turn_events_within c b :
  in_range b -> Forall (delay_within 1 603) (turn_events c b).
Proof.
  intros Hb. pose proof (in_range_after_serve_once c b Hb) as [_ Hd].
  destruct (serve_cases c) as [Hs | [Hs | (Hs1 & Hs2 & _)]].
  - rewrite (turn_events_stop c b Hs). forall_events.
  - rewrite (turn_events_interrupt c b Hs). forall_events.
  - pose proof (turn_events_backoff c b Hs1 Hs2) as Hev. cbv zeta in Hev.
    rewrite Hev. apply List.Forall_cons; [exact I |].
    apply Forall_app. split.
    + unfold exception_log. destruct (serve c); forall_events.
    + destruct (sleep_interrupted c); forall_events; exact Hd.
Qed.

Lemma loop_within script : forall b,
  in_range b ->
  Forall (fun c => 0 <= sample c <= 1)%Q script ->
  Forall (delay_within 1 603) (loop_events script b) /\
  in_range (after_script script b).
Proof.
  induction script as [| c rest IH]; intros b Hb Hu.
  - split; [constructor | exact Hb].
  - inversion Hu as [| ? ? Hc Hrest]; subst.
    rewrite loop_events_cons, after_script_cons.
    pose proof (turn_events_within c b Hb) as Hev.
    pose proof (in_range_after_turn c b Hb Hc) as Hb1.
    destruct (leaves c).
    + rewrite app_nil_r. split; assumption.
    + destruct (IH _ Hb1 Hrest) as [Hev' Hb'].
      split; [apply Forall_app; split; assumption | exact Hb'].
Qed.

(** From a back-end whose delay is between 1 and 603, as a new one is, with
    every random draw between 0 and 1: every delay the loop logs and every
    sleep lasts between 1 and 603 seconds, never a negative time, and the
    delay stored at the end is in that range again. *)
Theorem serve_forever_delays_in_range (b : Backend) (script : list cycle) :
  in_range b ->
  Forall (fun c => 0 <= sample c <= 1)%Q script ->
  Forall (delay_within 1 603) (snd (fst (run b script))) /\
  in_range (fst (fst (run b script))).
Proof.
  intros Hb Hu. destruct (loop_within script b Hb Hu) as [Hev Hb'].
  rewrite run_eq. destruct (existsb leaves script); cbn [fst snd].
  - split; [| exact Hb'].
    apply Forall_app. split; [exact Hev | forall_events].
  - split; assumption.
Qed.

(** Two failed cycles with the largest jitter from a new back-end. *)
Lemma serve_forever_delays_in_range_witness :
  let script := [failure (OtherException "timeout") 1;
                 failure (OtherException "timeout") 1] in
  Forall (delay_within 1 603) (snd (fst (run __init__ script))) /\
  in_range (fst (fst (run __init__ script))).
Proof.
  intros script.
  apply (serve_forever_delays_in_range __init__ script).
  - split; [reflexivity | cbn; lra].
  - forall_events; cbn; lra.
Defined.

Lemma reconnect_counts_app tr1 tr2 :
  reconnect_counts (tr1 ++ tr2) = (reconnect_counts tr1 ++ reconnect_counts tr2)%list.
Proof.
  induction tr1 as [| e tr1 IH]; [reflexivity |].
  destruct e; cbn; rewrite IH; reflexivity.
Qed.

(** After the events of a turn, whatever follows stays announced. *)
Lemma announced_turn c b tail :
  announced tail -> announced (turn_events c b ++ tail).
Proof.
  intros Htail. unfold turn_events.
  destruct c as [conn [[|] | e] si u]; try destruct e;
    destruct conn, si;
    unfold turn, serve_once, _delay_reconnect, time_sleep,
      reset_reconnection_count, try_except, emit, get, modify, raise,
      mbind, M_bind, bind, mret, M_ret, ret; cbn; auto.
Qed.

Lemma announced_loop script : forall b tail,
  announced tail -> announced (loop_events script b ++ tail).
Proof.
  induction script as [| c rest IH]; intros b tail Htail; [exact Htail |].
  rewrite loop_events_cons, <- app_assoc. apply announced_turn.
  destruct (leaves c); [exact Htail | apply IH, Htail].
Qed.

(** The record of a turn of an adapter that did not connect shows the count
    the back-end had, and the count goes up by one when the turn goes on. *)
Lemma turn_counts c b :
  connects c = false ->
  (reconnect_counts (turn_events c b) = [] /\ leaves c = true) \/
  (reconnect_counts (turn_events c b) = [_reconnection_count b] /\
   (leaves c = false ->
    _reconnection_count (after_turn c b) = (_reconnection_count b + 1)%Z)).
Proof.
  intros Hconn.
  pose proof (after_turn_eq c b) as Hb. cbv zeta in Hb.
  pose proof (after_serve_once_eq c b) as Hb1. rewrite Hconn in Hb1.
  rewrite Hb1 in Hb.
  destruct (serve_cases c) as [Hs | [Hs | (Hs1 & Hs2 & Hl)]].
  - left. rewrite (turn_events_stop c b Hs). unfold leaves. rewrite Hs. auto.
  - left. rewrite (turn_events_interrupt c b Hs). unfold leaves. rewrite Hs. auto.
  - right. pose proof (turn_events_backoff c b Hs1 Hs2) as Hev.
    cbv zeta in Hev. rewrite Hb1 in Hev. rewrite Hev. split.
    + unfold exception_log.
      destruct (serve c), (sleep_interrupted c); reflexivity.
    + intros Hgo. rewrite Hb, Hgo. reflexivity.
Qed.

Lemma loop_counts script : forall b,
  forallb (fun c => negb (connects c)) script = true ->
  counts_from (_reconnection_count b) (reconnect_counts (loop_events script b)).
Proof.
  induction script as [| c rest IH]; intros b Hconn; [exact I |].
  cbn [forallb] in Hconn. apply andb_true_iff in Hconn as [Hc Hrest].
  apply negb_true_iff in Hc.
  rewrite loop_events_cons, reconnect_counts_app.
  destruct (turn_counts c b Hc) as [[-> ->] | [-> Hgo]].
  - exact I.
  - cbn. split; [reflexivity |].
    destruct (leaves c); [exact I |].
    rewrite <- (Hgo eq_refl). apply IH, Hrest.
Qed.

(** The log tells the truth about the sleeps: every "Reconnecting in [d]
    seconds" record is followed at once by a sleep of exactly [d] seconds;
    and while the adapter does not connect the records count the
    reconnections one by one, from the count the back-end started with. *)
Theorem serve_forever_log_announces_sleeps (b : Backend) (script : list cycle) :
  announced (snd (fst (run b script))) /\
  (forallb (fun c => negb (connects c)) script = true ->
   counts_from (_reconnection_count b)
               (reconnect_counts (snd (fst (run b script))))).
Proof.
  rewrite run_eq. split.
  - destruct (existsb leaves script); cbn [fst snd].
    + apply announced_loop. exact I.
    + rewrite <- (app_nil_r (loop_events script b)).
      apply announced_loop. exact I.
  - intros Hconn. pose proof (loop_counts script b Hconn) as H.
    destruct (existsb leaves script); cbn [fst snd]; [| exact H].
    rewrite reconnect_counts_app. cbn. rewrite app_nil_r. exact H.
Qed.

End TraceFacts.

(** ** Backend: the back-off under any jitter *)

Section JitterFacts.

Import Backend BackendTrace.

(** Failed cycles with any jitter from 0 to 3 wait at least as long as
    failed cycles without jitter. *)
Lemma failures_lower_bound script : forall b,
  settings b = settings __init__ ->
  (0 < _reconnection_delay b)%Q ->
  forallb failed script = true ->
  Forall (fun c => 0 <= sample c <= 1)%Q script ->
  (Qmin (_reconnection_delay b * (7 # 4) ^ Z.of_nat (length script)) 600
     <= _reconnection_delay (after_script script b))%Q /\
  _reconnection_count (after_script script b)
    = (_reconnection_count b + Z.of_nat (length script))%Z.
Proof.
  induction script as [| c rest IH]; intros b Hset Hd Hfail Hu.
  - unfold after_script. cbn [serve_loop length]. cbn.
    change ((7 # 4) ^ Z.of_nat 0)%Q with 1%Q.
    split; [| lia]. pose proof (Q.le_min_l (_reconnection_delay b * 1) 600). lra.
  - cbn [forallb] in Hfail. apply andb_true_iff in Hfail as [Hc Hrest].
    inversion Hu as [| ? ? Hcu Hu']; subst.
    rewrite after_script_cons. destruct (failed_parts c Hc) as [_ ->].
    destruct (delay_after_failure c b Hset Hc) as [Hd1 _].
    assert (Hset1 : settings (after_turn c b) = settings __init__)
      by (rewrite settings_after_turn; exact Hset).
    set (d := _reconnection_delay b) in *.
    set (d1 := _reconnection_delay (after_turn c b)) in *.
    assert (Hpos1 : (0 < d1)%Q).
    { destruct (Q.min_spec (d * (7 # 4)) 600) as [[H1 H2] | [H1 H2]];
        rewrite H2 in Hd1; lra. }
    destruct (IH (after_turn c b) Hset1 Hpos1 Hrest Hu') as [Hlow Hcnt].
    fold d1 in Hlow. split.
    + cbn [length]. rewrite power_succ.
      pose proof (power_ge_1 (length rest)) as Hp.
      set (p := ((7 # 4) ^ Z.of_nat (length rest))%Q) in *.
      set (final := _reconnection_delay (after_script rest (after_turn c b))) in *.
      destruct (Q.min_spec (d * (7 # 4)) 600) as [[H1 H2] | [H1 H2]];
        rewrite H2 in Hd1;
        destruct (Q.min_spec (d1 * p) 600) as [[H3 H4] | [H3 H4]];
        rewrite H4 in Hlow;
        destruct (Q.min_spec (d * ((7 # 4) * p)) 600) as [[H5 ->] | [H5 ->]];
        nra.
    + rewrite Hcnt, (after_failed_turn c b Hc). cbn. lia.
Qed.

(** Whatever the jitter, after [n] failed cycles in a row from a new
    back-end the delay is at least [min(1.75^n, 600)] and at most 603, so
    from the twelfth failure on it stays between 600 and 603; the count is
    [n]. *)
Theorem backoff_reaches_cap (script : list cycle) :
  forallb failed script = true ->
  Forall (fun c => 0 <= sample c <= 1)%Q script ->
  let n := length script in
  let b := after_script script __init__ in
  (Qmin (1.75 ^ Z.of_nat n) 600 <= _reconnection_delay b <= 603)%Q /\
  ((12 <= n)%nat -> (600 <= _reconnection_delay b <= 603)%Q) /\
  _reconnection_count b = Z.of_nat n.
Proof.
  intros Hfail Hu n b.
  assert (Hd0 : (0 < _reconnection_delay __init__)%Q) by (cbn; lra).
  destruct (failures_lower_bound script __init__ eq_refl Hd0 Hfail Hu)
    as [Hlow Hcnt].
  fold n in Hlow, Hcnt. fold b in Hlow, Hcnt.
  change (_reconnection_delay __init__) with 1%Q in Hlow.
  assert (Hin : in_range __init__) by (split; [reflexivity | cbn; lra]).
  destruct (loop_within script __init__ Hin Hu) as [_ [_ Hup]]. fold b in Hup.
  assert (Hlow' : (Qmin (1.75 ^ Z.of_nat n) 600 <= _reconnection_delay b)%Q).
  { pose proof (power_decimal n) as Hdec.
    set (p := ((7 # 4) ^ Z.of_nat n)%Q) in *.
    set (q := (1.75 ^ Z.of_nat n)%Q) in *.
    destruct (Q.min_spec (1 * p) 600) as [[H1 H2] | [H1 H2]];
      rewrite H2 in Hlow;
      destruct (Q.min_spec q 600) as [[H3 ->] | [H3 ->]]; lra. }
  split; [split; [exact Hlow' | apply Hup] |].
  split; [| exact Hcnt].
  intros Hn. split; [| apply Hup].
  pose proof (power_mono 12 n Hn) as Hm. pose proof power_12 as H12.
  rewrite Q.min_r in Hlow by lra. exact Hlow.
Qed.

(** Twelve failed cycles with the largest jitter. *)
Lemma backoff_reaches_cap_witness :
  let script := repeat (failure (OtherException "timeout") 1) 12 in
  (600 <= _reconnection_delay (after_script script __init__) <= 603)%Q /\
  _reconnection_count (after_script script __init__) = 12%Z.
Proof.
  intros script.
  assert (Hfail : forallb failed script = true) by reflexivity.
  assert (Hu : Forall (fun c => 0 <= sample c <= 1)%Q script).
  { unfold script. cbn [repeat].
    repeat first [apply List.Forall_nil
                 | apply List.Forall_cons; [cbn; lra |]]. }
  destruct (backoff_reaches_cap script Hfail Hu) as (_ & Hcap & Hcnt).
  split; [apply Hcap; cbn; lia | exact Hcnt].
Defined.

(** A successful connect restarts the back-off inside the loop: when the
    adapter has connected (and called [reset_reconnection_count]) and the
    connection is then lost, the loop announces 1 second and 0 attempts
    whatever the delay and the count were, and after the sleep the count
    is 1 and the delay [1.75] plus the jitter. *)
Theorem connect_restarts_backoff (b : Backend) (c : cycle) :
  settings b = settings __init__ ->
  connects c = true -> leaves c = false ->
  turn_events c b =
    (CallServeOnce :: exception_log c ++ [LogReconnecting 1 0; Slept 1])%list /\
  _reconnection_count (after_turn c b) = 1%Z /\
  (_reconnection_delay (after_turn c b) == 1.75 + uniform (0, 3)%Q (sample c))%Q.
Proof.
  intros Hset Hconn Hgo.
  destruct (default_settings b Hset) as (Hmax & Hmul & Hjit).
  pose proof (after_serve_once_eq c b) as Hb1. rewrite Hconn in Hb1.
  destruct (serve_cases c) as [Hs | [Hs | (Hs1 & Hs2 & Hl)]].
  - unfold leaves in Hgo. rewrite Hs in Hgo. discriminate.
  - unfold leaves in Hgo. rewrite Hs in Hgo. discriminate.
  - rewrite Hgo in Hl. symmetry in Hl.
    pose proof (turn_events_backoff c b Hs1 Hs2) as Hev. cbv zeta in Hev.
    pose proof (after_turn_eq c b) as Hb. cbv zeta in Hb.
    rewrite Hb1, Hl in Hev. rewrite Hb1, Hgo in Hb.
    split; [rewrite Hev; reflexivity |].
    rewrite Hb. split; [reflexivity |].
    cbn. rewrite pre_jitter_delay_min. cbn. rewrite Hmax, Hmul, Hjit.
    rewrite Q.min_l by lra. lra.
Qed.

(** From a back-end that has failed three times, a connect, then a lost
    connection. *)
Lemma connect_restarts_backoff_witness :
  let b := set_count 3 (set_delay (343 # 64) __init__) in
  let c := mkCycle true (Raise (OtherException "connection lost")) false 0 in
  turn_events c b =
    [CallServeOnce; LogException; LogReconnecting 1 0; Slept 1] /\
  _reconnection_count (after_turn c b) = 1%Z.
Proof.
  intros b c.
  destruct (connect_restarts_backoff b c eq_refl eq_refl eq_refl)
    as (Hev & Hcnt & _).
  split; [exact Hev | exact Hcnt].
Defined.

Lemma count_exception_loop script : forall b,
  Forall (fun c => serve c = base_serve_once) script ->
  existsb leaves script = false ->
  count is_exception_log (loop_events script b) = length script.
Proof.
  induction script as [| c rest IH]; intros b Hbase Hgo; [reflexivity |].
  inversion Hbase as [| ? ? Hc Hrest]; subst.
  cbn [existsb] in Hgo. apply orb_false_iff in Hgo as [Hl Hgo].
  rewrite loop_events_cons, Hl, count_app, (IH _ Hrest Hgo).
  assert (Hs1 : serve c <> Return true) by (rewrite Hc; discriminate).
  assert (Hs2 : serve c <> Raise KeyboardInterrupt) by (rewrite Hc; discriminate).
  pose proof (turn_events_backoff c b Hs1 Hs2) as Hev. cbv zeta in Hev.
  rewrite Hev. unfold exception_log. rewrite Hc.
  destruct (sleep_interrupted c); reflexivity.
Qed.

(** With the [serve_once] of the base class, which raises
    [NotImplementedError], [serve_forever] does not end by itself: every
    turn logs the exception and backs off, and the loop is left, and
    [shutdown()] called, exactly when an interrupt arrives during a
    sleep. *)
Theorem base_serve_once_never_stops (b : Backend) (script : list cycle) :
  Forall (fun c => serve c = base_serve_once) script ->
  snd (run b script) = Return (existsb sleep_interrupted script) /\
  (existsb sleep_interrupted script = false ->
   count is_exception_log (snd (fst (run b script))) = length script /\
   count is_reconnecting (snd (fst (run b script))) = length script /\
   count is_shutdown (snd (fst (run b script))) = 0%nat).
Proof.
  intros Hbase.
  assert (Hleaves : existsb leaves script = existsb sleep_interrupted script).
  { induction Hbase as [| c rest Hc _ IH]; [reflexivity |].
    cbn [existsb]. rewrite IH. unfold leaves. rewrite Hc. reflexivity. }
  rewrite run_eq, Hleaves.
  split; [destruct (existsb sleep_interrupted script); reflexivity |].
  intros Hquiet. rewrite Hquiet. cbn [fst snd].
  rewrite <- Hleaves in Hquiet.
  split; [apply count_exception_loop; assumption |].
  split; [| apply loop_events_counts].
  clear Hleaves. revert b.
  induction Hbase as [| c rest Hc Hrest IH]; intros b; [reflexivity |].
  cbn [existsb] in Hquiet. apply orb_false_iff in Hquiet as [Hl Hgo].
  rewrite loop_events_cons, Hl, count_app, (IH Hgo).
  assert (Hs1 : serve c <> Return true) by (rewrite Hc; discriminate).
  assert (Hs2 : serve c <> Raise KeyboardInterrupt) by (rewrite Hc; discriminate).
  pose proof (turn_events_backoff c b Hs1 Hs2) as Hev. cbv zeta in Hev.
  rewrite Hev. unfold exception_log. rewrite Hc.
  destruct (sleep_interrupted c); reflexivity.
Qed.

(** Three turns of the base [serve_once], none interrupted. *)
Lemma base_serve_once_never_stops_witness :
  let script := repeat (mkCycle false base_serve_once false 0) 3 in
  snd (run __init__ script) = Return false /\
  count is_exception_log (snd (fst (run __init__ script))) = 3%nat.
Proof.
  intros script.
  assert (Hbase : Forall (fun c => serve c = base_serve_once) script).
  { unfold script. cbn [repeat].
    repeat first [apply List.Forall_nil
                 | apply List.Forall_cons; [reflexivity |]]. }
  destruct (base_serve_once_never_stops __init__ script Hbase) as [Hret Hrest].
  split; [exact Hret |]. apply Hrest. reflexivity.
Defined.

End JitterFacts.

(** ** Messages to room occupants *)

Section OccupantFacts.

Import BackendClasses.

(** Only the class itself is a subclass of a class other than
    [Identifier]. *)
Lemma issubclass_leaf c d :
  d <> Identifier -> issubclass c d = true <-> c = d.
Proof.
  intros Hd. destruct c, d; try congruence; vm_compute;
    split; intros H; congruence.
Qed.

Lemma derives_from_In k c :
  c <> Identifier -> derives_from k c = true <-> In c (contract_bases k).
Proof.
  intros Hc. unfold derives_from. rewrite existsb_exists. split.
  - intros (base & Hin & Hsub). apply (issubclass_leaf base c Hc) in Hsub.
    subst. exact Hin.
  - intros Hin. exists c. split; [exact Hin |].
    apply issubclass_leaf; [exact Hc | reflexivity].
Qed.

(** The tagged identifiers are the objects of the classes with one contract
    base: [isinstance] agrees on them. *)
Lemma isinstance_of_identifier i c :
  isinstance_of (Some (of_identifier i)) c = isinstance (Some i) c.
Proof.
  unfold isinstance_of, of_identifier, derives_from. cbn.
  apply orb_false_r.
Qed.

(** C10, counterexample.  An occupant object whose class derives from
    [Person] and from [RoomOccupant]: it is a [RoomOccupant], and a
    message addressed to it is direct. *)
Lemma room_occupant_that_is_a_person :
  let k := mkClass "BackendRoomOccupant" [Person; RoomOccupant] in
  let o := mkInstance k "room@conference/nick" in
  isinstance_of (Some o) RoomOccupant = true /\
  is_direct_to (Some o) = true /\
  is_group_to (Some o) = false.
Proof.
  cbv zeta. split; [| split].
  - vm_compute. reflexivity.
  - vm_compute. reflexivity.
  - vm_compute. reflexivity.
Qed.

(** C10, amended.  The class [RoomOccupant] is a subclass of neither
    [Person] nor [Room].  For a message addressed to any object,
    [is_direct] is true exactly when the class of the object derives from
    [Person] and [is_group] exactly when it derives from [Room], whatever
    else the class derives from.  So a message to an occupant whose class
    derives from [RoomOccupant] alone is neither direct nor group, and a
    message to an occupant whose class derives from [Person] as well is
    direct.  On the identifiers tagged with one class the two properties
    are those of [Message]. *)
Theorem message_to_room_occupant_by_class (o : instance) :
  issubclass RoomOccupant Person = false /\
  issubclass RoomOccupant Room = false /\
  (isinstance_of (Some o) RoomOccupant = true <->
     In RoomOccupant (contract_bases (class_of o))) /\
  (is_direct_to (Some o) = true <-> In Person (contract_bases (class_of o))) /\
  (is_group_to (Some o) = true <-> In Room (contract_bases (class_of o))) /\
  (contract_bases (class_of o) = [RoomOccupant] ->
     is_direct_to (Some o) = false /\ is_group_to (Some o) = false) /\
  (isinstance_of (Some o) RoomOccupant = true ->
   In Person (contract_bases (class_of o)) ->
     is_direct_to (Some o) = true) /\
  (forall m : Message.Message,
     Message.is_direct m = is_direct_to (of_identifier <$> Message.to m) /\
     Message.is_group m = is_group_to (of_identifier <$> Message.to m)).
Proof.
  split; [reflexivity |]. split; [reflexivity |].
  split; [apply derives_from_In; discriminate |].
  split; [apply derives_from_In; discriminate |].
  split; [apply derives_from_In; discriminate |].
  split; [| split].
  - intros Hbases. unfold is_direct_to, is_group_to, isinstance_of, derives_from.
    rewrite Hbases. split; reflexivity.
  - intros _ Hperson. apply derives_from_In; [discriminate | exact Hperson].
  - intros m. unfold Message.is_direct, Message.is_group, is_direct_to, is_group_to.
    destruct (Message.to m) as [i |]; [| split; reflexivity].
    cbn [fmap option_fmap option_map].
    rewrite !isinstance_of_identifier. split; reflexivity.
Qed.

End OccupantFacts.
